(** * The command line driver of the TON Solidity compiler

    A shallow embedding of [compiler/solc/CommandLineInterface.cpp]: the
    driver that parses the command line, loads the input file, configures
    and invokes the compilation engine ([CompilerStack]), classifies the
    faults the engine raises, and prints the requested outputs.

    The driver is stateful C++: it mutates the members of the
    [CommandLineInterface] object and the global [g_hasOutput], writes on
    [cout] and [cerr], and throws and catches exceptions.  The embedding
    threads an explicit state [CLI] through a small state-and-exception
    monad [M]; the state survives a throw, as the side effects of C++ do.
    What the driver only calls (the file system, the engine, the formatter
    of diagnostics) is an environment [Env] the definitions are
    parameterised by. *)

From Stdlib Require Import String Ascii List Bool Arith Lia.
Import ListNotations.
Local Open Scope string_scope.
Local Open Scope list_scope.

Set Implicit Arguments.

(** ** Text *)

(** [std::endl], as the character it writes. *)
Definition endl : string := String (ascii_of_nat 10) EmptyString.

(** The double quote character, as a one-character string. *)
Definition dquote : string := String (ascii_of_nat 34) EmptyString.

(** [find(path.begin(), path.end(), c)] followed by [string(it + 1, path.end())]:
    the text after the first occurrence of [c], or [None] when the iterator
    is [path.end()]. *)
Fixpoint after_first (c : ascii) (s : string) : option string :=
  match s with
  | EmptyString => None
  | String a rest => if Ascii.eqb a c then Some rest else after_first c rest
  end.

(** The text before the first occurrence of [c]; the whole string when
    there is none. *)
Fixpoint before_first (c : ascii) (s : string) : string :=
  match s with
  | EmptyString => EmptyString
  | String a rest => if Ascii.eqb a c then EmptyString else String a (before_first c rest)
  end.

(** [operator<<] on a [boost::filesystem::path]: the path between double
    quotes, with ampersand as the escape character. *)
Fixpoint quoted_body (s : string) : string :=
  match s with
  | EmptyString => EmptyString
  | String a rest =>
      if Ascii.eqb a (ascii_of_nat 34) || Ascii.eqb a "&"%char
      then String "&"%char (String a (quoted_body rest))
      else String a (quoted_body rest)
  end.

Definition quoted (s : string) : string := dquote ++ quoted_body s ++ dquote.

(** ** Option names (lines 99-126 of the source) *)

Definition g_strAstJson := "ast-json".
Definition g_strAstCompactJson := "ast-compact-json".
Definition g_strHelp := "help".
Definition g_strInputFile := "input-file".
Definition g_strLicense := "license".
Definition g_strNatspecDev := "devdoc".
Definition g_strNatspecUser := "userdoc".
Definition g_strOutputDir := "output-dir".
Definition g_strFile := "file".
Definition g_strVersion := "version".

Definition g_argAstCompactJson := g_strAstCompactJson.
Definition g_argAstJson := g_strAstJson.
Definition g_argHelp := g_strHelp.
Definition g_argInputFile := g_strInputFile.
Definition g_argNatspecDev := g_strNatspecDev.
Definition g_argNatspecUser := g_strNatspecUser.
Definition g_argOutputDir := g_strOutputDir.
Definition g_argFile := g_strFile.
Definition g_argVersion := g_strVersion.

Definition g_argDebug := "debug".
Definition g_argSetContract := "contract".
Definition g_argTvm := "tvm".
Definition g_argTvmABI := "tvm-abi".
Definition g_argTvmOptimize := "tvm-optimize".
Definition g_argTvmPeephole := "tvm-peephole".
Definition g_argTvmUnsavedStructs := "tvm-unsaved-structs".

(** ** Data *)

(** [CompilerStack::Remapping]. *)
Record Remapping := mkRemapping {
  context : string;
  prefix : string;
  target : string
}.

(** [ReadCallback::Result]. *)
Record ReadResult := mkResult {
  success : bool;
  responseOrErrorMessage : string
}.

(** Modelled from the spec: the type of [m_sourceCodes] is declared in the
    header, which is not among the sources.  The spec's data model has it
    keyed by logical path, keys unique, insertion-ordered, and re-reading a
    path overwrites its content. *)
Definition SourceMap := list (string * string).

(** [m_sourceCodes[k] = v]. *)
Fixpoint map_set (k v : string) (m : SourceMap) : SourceMap :=
  match m with
  | [] => [(k, v)]
  | (k', v') :: rest =>
      if String.eqb k' k then (k, v) :: rest else (k', v') :: map_set k v rest
  end.

(** [po::variables_map]: the options that were given, each with its value
    when it takes one. *)
Definition variables_map := list (string * option string).

Fixpoint vm_find (name : string) (m : variables_map) : option (option string) :=
  match m with
  | [] => None
  | (k, v) :: rest => if String.eqb k name then Some v else vm_find name rest
  end.

(** [m_args.count(name)]: 0 or 1. *)
Definition count (m : variables_map) (name : string) : nat :=
  match vm_find name m with
  | Some _ => 1
  | None => 0
  end.

(** ** Exceptions *)

(** [Error::Type]. *)
Inductive ErrorType :=
| DeclarationError
| DocstringParsingError
| ParserError
| TypeError
| SyntaxError
| Warning.

(** The dynamic class of a thrown object, as far as the handlers of the
    driver can tell classes apart.  [CompilerError], [InternalCompilerError],
    [UnimplementedFeatureError] and [Error] derive from [util::Exception],
    which derives from [std::exception]. *)
Inductive dyn_class :=
| DCompilerError
| DInternalCompilerError
| DUnimplementedFeatureError
| DError (t : ErrorType)
| DOtherException      (* any other class derived from util::Exception *)
| DStdException        (* std::exception, not a util::Exception *)
| DNonStd.             (* anything else that can be thrown *)

(** The types named by the [catch] clauses. *)
Inductive handler_type :=
| HCompilerError
| HInternalCompilerError
| HUnimplementedFeatureError
| HError
| HException
| HStdException
| HEllipsis.

(** Whether [catch (H const&)] catches an object of dynamic class [d]. *)
Definition catches (h : handler_type) (d : dyn_class) : bool :=
  match h, d with
  | HEllipsis, _ => true
  | HStdException, DNonStd => false
  | HStdException, _ => true
  | HException, (DNonStd | DStdException) => false
  | HException, _ => true
  | HError, DError _ => true
  | HCompilerError, DCompilerError => true
  | HInternalCompilerError, DInternalCompilerError => true
  | HUnimplementedFeatureError, DUnimplementedFeatureError => true
  | _, _ => false
  end.

(** A thrown object: its class and what the handlers read from it. *)
Record exn := mkExn {
  dyn : dyn_class;
  errinfo_comment : option string;     (* boost::get_error_info<errinfo_comment>(e),
                                          [None] for the null pointer *)
  typeName : string;                   (* Error::typeName() *)
  what : option string;                (* std::exception::what(), may be null *)
  diagnostic_information : string      (* boost::diagnostic_information(e) *)
}.

(** [Error::type()]. *)
Definition type (e : exn) : option ErrorType :=
  match dyn e with
  | DError t => Some t
  | _ => None
  end.

(** The errors of [boost::program_options] the option table can produce. *)
Inductive po_error :=
| unknown_option (token : string)
| multiple_occurrences (name : string)
| missing_parameter (name : string)
| extra_parameter (name : string).

(** ** The engine, seen from the driver *)

(** The calls the driver makes on [m_compiler] while it configures and
    invokes it. *)
Inductive engine_call :=
| SetRemappings (r : list Remapping)
| SetSources (m : SourceMap)
| SetStructWarning (b : bool)
| SetMainContract (name : string)
| SetOutputFolder (dir : string)
| SetFileNamePrefix (p : string)
| GenerateAbi
| GenerateCode
| WithOptimizations
| WithDebugInfo
| SetInputFile (name : string)
| Compile.

(** What [CompilerStack::compile] does, seen from the driver: it calls the
    read callback any number of times, each request chosen from the answers
    so far, and then returns [(successful, didCompileSomething)] with the
    errors it collected, or throws. *)
Inductive script :=
| Done (successful didCompileSomething : bool) (errors : list exn)
| Fail (e : exn)
| Read (kind path : string) (k : ReadResult -> script).

(** Everything the driver calls and does not define. *)
Record Env := mkEnv {
  (* boost::filesystem; [inl e] when the operation throws *)
  fs_exists : string -> exn + bool;
  fs_is_regular_file : string -> exn + bool;
  fs_canonical : string -> exn + string;
  fs_weakly_canonical : string -> exn + string;
  generic_string : string -> string;
  remove_filename : string -> string;
  (* libsolutil *)
  readFileAsString : string -> string;
  jsonPrettyPrint : string -> string;
  (* the engine *)
  parseRemapping : string -> option Remapping;
  kindString_ReadFile : string;
  on_call : engine_call -> option exn;
  compile_script : script;
  compilationSuccessful : bool;
  contractNames : list string;
  natspecDev : string -> string;
  natspecUser : string -> string;
  ASTJsonConverter_print : bool -> string -> string;
  (* SourceReferenceFormatterHuman *)
  printErrorInformation : exn -> string;
  printExceptionInformation : exn -> string -> string;
  (* boost::diagnostic_information of an InternalCompilerError that
     BOOST_THROW_EXCEPTION throws with the given errinfo_comment *)
  boost_diagnostic : string -> string;
  (* texts generated at build time or by boost *)
  desc : string;
  VersionString : string;
  otherLicenses : string;
  licenseText : string;
  po_what : po_error -> string;
  (* the terminal *)
  isatty_stderr : bool;
  isatty_stdin : bool
}.

(** ** The state of the driver *)

Inductive stream := Cout | Cerr.

Definition stream_eqb (a b : stream) : bool :=
  match a, b with
  | Cout, Cout | Cerr, Cerr => true
  | _, _ => false
  end.

(** The members of [CommandLineInterface], the global [g_hasOutput], and
    what the run did to the outside: [out] is everything written on the two
    streams, oldest first, one entry per output statement; [engine_log] the
    calls made on the engine, [reader_log] the calls the engine made on the
    read callback, [peephole_log] the calls of [run_peephole_pass]. *)
Record CLI := mkCLI {
  g_hasOutput : bool;
  out : list (stream * string);
  m_args : variables_map;
  m_sourceCodes : SourceMap;
  m_remappings : list Remapping;
  m_allowedDirectories : list string;
  m_coloredOutput : bool;
  m_error : bool;
  m_compiler : bool;                       (* false: the null pointer *)
  engine_log : list engine_call;
  reader_log : list (string * string);
  peephole_log : list string
}.

(** A freshly constructed [CommandLineInterface]. *)
Definition fresh : CLI :=
  mkCLI false [] [] [] [] [] false false false [] [] [].

Definition set_hasOutput (b : bool) (s : CLI) : CLI :=
  mkCLI b (out s) (m_args s) (m_sourceCodes s) (m_remappings s)
    (m_allowedDirectories s) (m_coloredOutput s) (m_error s) (m_compiler s)
    (engine_log s) (reader_log s) (peephole_log s).

Definition set_out (o : list (stream * string)) (s : CLI) : CLI :=
  mkCLI (g_hasOutput s) o (m_args s) (m_sourceCodes s) (m_remappings s)
    (m_allowedDirectories s) (m_coloredOutput s) (m_error s) (m_compiler s)
    (engine_log s) (reader_log s) (peephole_log s).

Definition set_args (a : variables_map) (s : CLI) : CLI :=
  mkCLI (g_hasOutput s) (out s) a (m_sourceCodes s) (m_remappings s)
    (m_allowedDirectories s) (m_coloredOutput s) (m_error s) (m_compiler s)
    (engine_log s) (reader_log s) (peephole_log s).

Definition set_sourceCodes (m : SourceMap) (s : CLI) : CLI :=
  mkCLI (g_hasOutput s) (out s) (m_args s) m (m_remappings s)
    (m_allowedDirectories s) (m_coloredOutput s) (m_error s) (m_compiler s)
    (engine_log s) (reader_log s) (peephole_log s).

Definition set_remappings (r : list Remapping) (s : CLI) : CLI :=
  mkCLI (g_hasOutput s) (out s) (m_args s) (m_sourceCodes s) r
    (m_allowedDirectories s) (m_coloredOutput s) (m_error s) (m_compiler s)
    (engine_log s) (reader_log s) (peephole_log s).

Definition set_allowedDirectories (d : list string) (s : CLI) : CLI :=
  mkCLI (g_hasOutput s) (out s) (m_args s) (m_sourceCodes s) (m_remappings s)
    d (m_coloredOutput s) (m_error s) (m_compiler s)
    (engine_log s) (reader_log s) (peephole_log s).

Definition set_coloredOutput (b : bool) (s : CLI) : CLI :=
  mkCLI (g_hasOutput s) (out s) (m_args s) (m_sourceCodes s) (m_remappings s)
    (m_allowedDirectories s) b (m_error s) (m_compiler s)
    (engine_log s) (reader_log s) (peephole_log s).

Definition set_compiler (b : bool) (s : CLI) : CLI :=
  mkCLI (g_hasOutput s) (out s) (m_args s) (m_sourceCodes s) (m_remappings s)
    (m_allowedDirectories s) (m_coloredOutput s) (m_error s) b
    (engine_log s) (reader_log s) (peephole_log s).

Definition set_engine_log (l : list engine_call) (s : CLI) : CLI :=
  mkCLI (g_hasOutput s) (out s) (m_args s) (m_sourceCodes s) (m_remappings s)
    (m_allowedDirectories s) (m_coloredOutput s) (m_error s) (m_compiler s)
    l (reader_log s) (peephole_log s).

Definition set_reader_log (l : list (string * string)) (s : CLI) : CLI :=
  mkCLI (g_hasOutput s) (out s) (m_args s) (m_sourceCodes s) (m_remappings s)
    (m_allowedDirectories s) (m_coloredOutput s) (m_error s) (m_compiler s)
    (engine_log s) l (peephole_log s).

Definition set_peephole_log (l : list string) (s : CLI) : CLI :=
  mkCLI (g_hasOutput s) (out s) (m_args s) (m_sourceCodes s) (m_remappings s)
    (m_allowedDirectories s) (m_coloredOutput s) (m_error s) (m_compiler s)
    (engine_log s) (reader_log s) l.

(** ** The monad of the driver *)

(** How a piece of the driver ends: it returns, it throws, it calls
    [exit], or it dereferences the null [m_compiler], which the language
    leaves undefined. *)
Inductive outcome (A : Type) :=
| Ret (a : A)
| Throw (e : exn)
| Exit (code : nat)
| Undefined.

Arguments Throw {A} e.
Arguments Exit {A} code.
Arguments Undefined {A}.

Definition M (A : Type) := CLI -> outcome A * CLI.

Definition ret {A} (a : A) : M A := fun s => (Ret a, s).

Definition bind {A B} (m : M A) (k : A -> M B) : M B :=
  fun s =>
    match m s with
    | (Ret a, s') => k a s'
    | (Throw e, s') => (Throw e, s')
    | (Exit c, s') => (Exit c, s')
    | (Undefined, s') => (Undefined, s')
    end.

Definition throw {A} (e : exn) : M A := fun s => (Throw e, s).

Definition exit {A} (code : nat) : M A := fun s => (Exit code, s).

(** A step the language leaves undefined. *)
Definition undefined {A} : M A := fun s => (Undefined, s).

Definition get : M CLI := fun s => (Ret s, s).

Definition modify (f : CLI -> CLI) : M unit := fun s => (Ret tt, f s).

(** [try { m } catch ... { h }]: the handler runs on the state the throw
    left. *)
Definition try_catch {A} (m : M A) (h : exn -> M A) : M A :=
  fun s =>
    match m s with
    | (Throw e, s') => h e s'
    | r => r
    end.

(** A library call that throws or gives a value. *)
Definition lift {A} (r : exn + A) : M A :=
  match r with
  | inl e => throw e
  | inr a => ret a
  end.

Declare Scope cli_scope.
Delimit Scope cli_scope with cli.
Notation "x <- c ;; k" := (bind c (fun x => k))
  (at level 61, c at next level, right associativity) : cli_scope.
Notation "c ;; k" := (bind c (fun _ => k))
  (at level 61, right associativity) : cli_scope.
Local Open Scope cli_scope.

(** ** The output streams (lines 81-94) *)

(** A statement [sout() << text]. *)
Definition sout (text : string) : M unit :=
  modify (fun s => set_out (out s ++ [(Cout, text)]) (set_hasOutput true s)).

(** A statement [serr(_used) << text]. *)
Definition serr_used (_used : bool) (text : string) : M unit :=
  modify (fun s =>
    set_out (out s ++ [(Cerr, text)])
      (if _used then set_hasOutput true s else s)).

(** [serr() << text], with the default argument. *)
Definition serr (text : string) : M unit := serr_used true text.

(** ** The command line (lines 268-316) *)

(** One line of the option table: the long name, the short name when there
    is one, and whether the option takes a value ([po::value<string>()]). *)
Record option_description := mkOpt {
  long_name : string;
  short_name : option ascii;
  takes_value : bool
}.

(** [allOptions]: [desc], [outputComponents] and the positional
    [input-file]. *)
Definition allOptions : list option_description :=
  [ mkOpt g_argHelp None false;
    mkOpt g_argVersion None false;
    mkOpt g_strLicense None false;
    mkOpt g_argOutputDir (Some "o"%char) true;
    mkOpt g_argSetContract (Some "c"%char) true;
    mkOpt g_argFile (Some "f"%char) true;
    mkOpt g_argAstJson None false;
    mkOpt g_argAstCompactJson None false;
    mkOpt g_argNatspecUser None false;
    mkOpt g_argNatspecDev None false;
    mkOpt g_argTvm None false;
    mkOpt g_argTvmABI None false;
    mkOpt g_argTvmPeephole None false;
    mkOpt g_argTvmOptimize None false;
    mkOpt g_argTvmUnsavedStructs None false;
    mkOpt g_argDebug None false;
    mkOpt g_argInputFile None true ].

Definition find_long (name : string) : option option_description :=
  find (fun d => String.eqb (long_name d) name) allOptions.

Definition find_short (c : ascii) : option option_description :=
  find (fun d => match short_name d with
                 | Some c' => Ascii.eqb c' c
                 | None => false
                 end) allOptions.

(** A parsed option: its key and its value. *)
Definition parsed_option := (string * option string)%type.

Definition add_option (o : parsed_option) (r : po_error + list parsed_option)
  : po_error + list parsed_option :=
  match r with
  | inl e => inl e
  | inr l => inr (o :: l)
  end.

(** [cmdLineParser.run()] on the tokens after [argv[0]], for the forms
    [--flag], [--option=value], [--option value], [-o value], [-ovalue],
    the terminator [--], and positional tokens, which
    [filesPositions.add(g_argInputFile, -1)] all names [input-file].
    Guessing of abbreviated names is switched off by the style the driver
    sets.  [pending] is the option still waiting for its value. *)
Fixpoint cmdline_run (pending : option string) (positional_only : bool)
    (tokens : list string) : po_error + list parsed_option :=
  match tokens with
  | [] =>
      match pending with
      | Some name => inl (missing_parameter name)
      | None => inr []
      end
  | t :: rest =>
      match pending with
      | Some name => add_option (name, Some t) (cmdline_run None positional_only rest)
      | None =>
          if positional_only then
            add_option (g_argInputFile, Some t) (cmdline_run None true rest)
          else if String.eqb t "--" then cmdline_run None true rest
          else if String.prefix "--" t then
            let body := substring 2 (String.length t - 2) t in
            let name := before_first "="%char body in
            match find_long name with
            | None => inl (unknown_option t)
            | Some d =>
                match after_first "="%char body, takes_value d with
                | Some v, true => add_option (name, Some v) (cmdline_run None false rest)
                | Some _, false => inl (extra_parameter name)
                | None, true => cmdline_run (Some name) false rest
                | None, false => add_option (name, None) (cmdline_run None false rest)
                end
            end
          else
            match t with
            | String "-"%char (String c value) =>
                match find_short c with
                | None => inl (unknown_option t)
                | Some d =>
                    if String.eqb value EmptyString
                    then cmdline_run (Some (long_name d)) false rest
                    else add_option (long_name d, Some value) (cmdline_run None false rest)
                end
            | _ => add_option (g_argInputFile, Some t) (cmdline_run None false rest)
            end
      end
  end.

(** [po::store(options, m)].  Every option of the table holds one value
    (none is composing or multitoken), so a second occurrence in the same
    command line throws [multiple_occurrences]; the options stored before
    it stay in the map.  An option the map held before the call ([final])
    keeps its value. *)
Fixpoint store_from (final : variables_map) (options : list parsed_option)
    (m : variables_map) : option po_error * variables_map :=
  match options with
  | [] => (None, m)
  | (k, v) :: rest =>
      match vm_find k final with
      | Some _ => store_from final rest m
      | None =>
          match vm_find k m with
          | Some _ => (Some (multiple_occurrences k), m)
          | None => store_from final rest (m ++ [(k, v)])
          end
      end
  end.

Definition store (options : list parsed_option) (m : variables_map) :=
  store_from m options m.

(** [boost::bad_any_cast], thrown by [m_args[name].as<string>()] when the
    option is absent or holds no string. *)
Definition bad_any_cast : exn :=
  mkExn DStdException None "" (Some "boost::bad_any_cast: failed conversion using boost::any_cast") "".

(** ** The driver *)

Section Driver.

Variable env : Env.

(** [m_args[name].as<string>()]. *)
Definition as_string (name : string) : M string :=
  s <- get ;;
  match vm_find name (m_args s) with
  | Some (Some v) => ret v
  | _ => throw bad_any_cast
  end.

(** [m_args.count(name)] as a condition. *)
Definition given (s : CLI) (name : string) : bool := Nat.ltb 0 (count (m_args s) name).

(** [BOOST_THROW_EXCEPTION(InternalCompilerError() << errinfo_comment(c))]. *)
Definition InternalCompilerError (c : string) : exn :=
  mkExn DInternalCompilerError (Some c) "" None (boost_diagnostic env c).

(** A use of [m_compiler->]: undefined on the null pointer. *)
Definition deref : M unit :=
  fun s => if m_compiler s then (Ret tt, s) else (Undefined, s).

(** A range-based [for]. *)
Fixpoint for_each {A} (l : list A) (body : A -> M unit) : M unit :=
  match l with
  | [] => ret tt
  | a :: rest => body a ;; for_each rest body
  end.

(** *** version and license (lines 129-146) *)

Definition version : M unit :=
  sout ("solc, the solidity compiler commandline interface" ++ endl ++
        "Version: " ++ VersionString env ++ endl) ;;
  exit 0.

Definition license : M unit :=
  sout (otherLicenses env ++ endl) ;;
  sout (licenseText env ++ endl) ;;
  exit 0.

(** *** needsHumanTargetedStdout (lines 148-158) *)

Definition needsHumanTargetedStdout (_args : variables_map) : bool :=
  existsb (fun arg => Nat.ltb 0 (count _args arg))
    [g_argAstJson; g_argNatspecUser; g_argNatspecDev].

(** *** handleNatspec (lines 160-193) *)

Definition handleNatspec (_natspecDev : bool) (_contract : string) : M unit :=
  let argName := if _natspecDev then g_argNatspecDev else g_argNatspecUser in
  let title := if _natspecDev then "Developer Documentation" else "User Documentation" in
  s <- get ;;
  if given s argName then
    deref ;;
    let output := jsonPrettyPrint env
      (if _natspecDev then natspecDev env _contract else natspecUser env _contract) in
    sout (title ++ endl) ;;
    sout (output ++ endl)
  else ret tt.

(** *** readInputFilesAndConfigureRemappings (lines 195-246) *)

(** Lines 239-245. *)
Definition checkSourcesGiven : M bool :=
  s <- get ;;
  if Nat.eqb (length (m_sourceCodes s)) 0 then
    serr ("No input files given. If you wish to use the standard input please specify "
          ++ dquote ++ "-" ++ dquote ++ " explicitly." ++ endl) ;;
    ret false
  else ret true.

(** Line 236. *)
Definition allowDirectoryOf (path : string) : M unit :=
  modify (fun s =>
    set_allowedDirectories (m_allowedDirectories s ++ [remove_filename env path]) s).

(** The block of lines 199-237, for the token [path], with what follows
    it when it does not return. *)
Definition readToken (path : string) : M bool :=
  match after_first "="%char path with
  | Some rest =>
      match parseRemapping env path with
      | Some r =>
          modify (fun s => set_remappings (m_remappings s ++ [r]) s) ;;
          allowDirectoryOf rest ;;
          checkSourcesGiven
      | None =>
          serr ("Invalid remapping: " ++ dquote ++ path ++ dquote ++ "." ++ endl) ;;
          ret false
      end
  | None =>
      let infile := path in
      found <- lift (fs_exists env infile) ;;
      if negb found then
        serr (quoted infile ++ " is not found." ++ endl) ;;
        ret false
      else
        regular <- lift (fs_is_regular_file env infile) ;;
        if negb regular then
          serr (quoted infile ++ " is not a valid file." ++ endl) ;;
          ret false
        else
          modify (fun s =>
            set_sourceCodes
              (map_set (generic_string env infile) (readFileAsString env infile)
                 (m_sourceCodes s)) s) ;;
          canonical <- lift (fs_canonical env infile) ;;
          allowDirectoryOf canonical ;;
          checkSourcesGiven
  end.

Definition readInputFilesAndConfigureRemappings : M bool :=
  s <- get ;;
  if given s g_argInputFile then
    path <- as_string g_argInputFile ;;
    readToken path
  else checkSourcesGiven.

(** *** parseArguments (lines 248-366) *)

(** Lines 310-321: [po::store(cmdLineParser.run(), m_args)] inside its
    [try]; the result is [false] when the handler of [po::error] ran. *)
Definition parseCommandLine (argv : list string) : M bool :=
  match cmdline_run None false (tl argv) with
  | inl e => serr (po_what env e ++ endl) ;; ret false
  | inr options =>
      s <- get ;;
      let '(err, m) := store options (m_args s) in
      modify (set_args m) ;;
      match err with
      | Some e => serr (po_what env e ++ endl) ;; ret false
      | None => ret true
      end
  end.

(** Lines 331-341: the first argument that is not the flag itself. *)
Definition peephole (argv : list string) : M bool :=
  match find (fun a => negb (String.eqb a ("--" ++ g_argTvmPeephole))) (tl argv) with
  | Some a =>
      modify (fun s => set_peephole_log (peephole_log s ++ [a]) s) ;;
      ret false
  | None =>
      serr ("Missing filename." ++ endl) ;;
      ret false
  end.

Definition parseArguments (argv : list string) : M bool :=
  modify (set_hasOutput false) ;;
  parsed <- parseCommandLine argv ;;
  if negb parsed then ret false
  else
    s <- get ;;
    let tvmAbi := given s g_argTvmABI in
    let tvmCode := given s g_argTvm in
    if tvmAbi && tvmCode then
      serr ("Option " ++ g_argTvmABI ++ " and " ++ g_argTvm ++
            " are mutually exclusive." ++ endl) ;;
      ret false
    else if given s g_argTvmPeephole then peephole argv
    else
      modify (set_coloredOutput (isatty_stderr env)) ;;
      if given s g_argHelp || (isatty_stdin env && Nat.eqb (length argv) 1) then
        sout (desc env) ;;
        ret false
      else if given s g_argVersion then
        version ;;
        ret false
      else if given s g_strLicense then
        license ;;
        ret false
      else ret true.

(** *** processInput (lines 368-514) *)

(** The lambda [fileReader] (lines 370-400). *)
Definition fileReader (_kind _path : string) : M ReadResult :=
  modify (fun s => set_reader_log (reader_log s ++ [(_kind, _path)]) s) ;;
  try_catch
    ((if negb (String.eqb _kind (kindString_ReadFile env)) then
        throw (InternalCompilerError ("ReadFile callback used as callback kind " ++ _kind))
      else ret tt) ;;
     let path := _path in
     canonicalPath <- lift (fs_weakly_canonical env path) ;;
     found <- lift (fs_exists env canonicalPath) ;;
     if negb found then ret (mkResult false "File not found.")
     else
       regular <- lift (fs_is_regular_file env canonicalPath) ;;
       if negb regular then ret (mkResult false "Not a valid file.")
       else
         let contents := readFileAsString env canonicalPath in
         modify (fun s =>
           set_sourceCodes (map_set (generic_string env path) contents (m_sourceCodes s)) s) ;;
         ret (mkResult true contents))
    (fun _exception =>
       if catches HException (dyn _exception) then
         ret (mkResult false
                ("Exception in read callback: " ++ diagnostic_information _exception))
       else
         ret (mkResult false "Unknown exception in read callback.")).

(** A call on the engine that configures it: it is logged, and it throws
    when the engine says so. *)
Definition call (c : engine_call) : M unit :=
  deref ;;
  modify (fun s => set_engine_log (engine_log s ++ [c]) s) ;;
  match on_call env c with
  | Some e => throw e
  | None => ret tt
  end.

(** The engine at work inside [compile()], calling back into [fileReader]. *)
Fixpoint run_script (sc : script) : M (bool * bool * list exn) :=
  match sc with
  | Done successful didCompileSomething errors =>
      ret (successful, didCompileSomething, errors)
  | Fail e => throw e
  | Read kind path k =>
      r <- fileReader kind path ;;
      run_script (k r)
  end.

(** [m_compiler->compile()] followed by [m_compiler->errors()]. *)
Definition compile : M (bool * bool * list exn) :=
  deref ;;
  modify (fun s => set_engine_log (engine_log s ++ [Compile]) s) ;;
  run_script (compile_script env).

(** [formatter->printErrorInformation] and [printExceptionInformation]
    write on the stream the formatter was built on, [serr(false)]. *)
Definition formatter_print (text : string) : M unit := serr_used false text.

Definition when (b : bool) (m : M unit) : M unit := if b then m else ret tt.

(** The first part of the body of the [try] (lines 412-443): the engine
    is configured. *)
Definition configure : M unit :=
  s <- get ;;
  when (given s g_argInputFile) (call (SetRemappings (m_remappings s))) ;;
  call (SetSources (m_sourceCodes s)) ;;
  when (given s g_argTvmUnsavedStructs) (call (SetStructWarning true)) ;;
  when (given s g_argSetContract)
    (name <- as_string g_argSetContract ;; call (SetMainContract name)) ;;
  when (given s g_argOutputDir)
    (dir <- as_string g_argOutputDir ;; call (SetOutputFolder dir)) ;;
  when (given s g_argFile)
    (p <- as_string g_argFile ;; call (SetFileNamePrefix p)) ;;
  when (given s g_argTvmABI) (call GenerateAbi) ;;
  when (given s g_argTvm) (call GenerateCode) ;;
  when (Nat.eqb (count (m_args s) g_argTvm) 0 && Nat.eqb (count (m_args s) g_argTvmABI) 0)
    (call GenerateCode ;; call GenerateAbi) ;;
  call WithOptimizations ;;
  when (given s g_argTvmOptimize)
    (serr ("Flag '--tvm-optimize' is deprecated. Code is optimized by default." ++ endl)) ;;
  when (given s g_argDebug) (call WithDebugInfo) ;;
  fileName <- as_string g_argInputFile ;;
  call (SetInputFile fileName).

(** Lines 452-453, the body of the loop over [m_compiler->errors()]. *)
Definition reportError (error : exn) : M unit :=
  modify (set_hasOutput true) ;;
  formatter_print (printErrorInformation env error).

(** The second part (lines 445-459): the engine is invoked and its errors
    are printed; the value is [successful]. *)
Definition invoke : M bool :=
  r <- compile ;;
  let '(successful, didCompileSomething, errors) := r in
  modify (fun s => set_hasOutput (g_hasOutput s || didCompileSomething) s) ;;
  for_each errors reportError ;;
  ret successful.

(** The body of the [try] (lines 412-459). *)
Definition configureAndCompile : M bool :=
  configure ;;
  invoke.

(** The handlers of the [try], in the order of the source (lines 461-511). *)
Definition handleFault (e : exn) : M bool :=
  if catches HCompilerError (dyn e) then
    modify (set_hasOutput true) ;;
    formatter_print (printExceptionInformation env e "Compiler error") ;;
    ret false
  else if catches HInternalCompilerError (dyn e) then
    serr ("Internal compiler error during compilation:" ++ endl ++
          diagnostic_information e) ;;
    ret false
  else if catches HUnimplementedFeatureError (dyn e) then
    serr ("Unimplemented feature:" ++ endl ++ diagnostic_information e) ;;
    ret false
  else if catches HError (dyn e) then
    (match type e with
     | Some DocstringParsingError =>
         (* line 486 dereferences the pointer without testing it *)
         match errinfo_comment e with
         | Some comment => serr ("Documentation parsing error: " ++ comment ++ endl)
         | None => undefined
         end
     | _ =>
         modify (set_hasOutput true) ;;
         formatter_print (printExceptionInformation env e (typeName e))
     end) ;;
    ret false
  else if catches HException (dyn e) then
    serr ("Exception during compilation: " ++ diagnostic_information e ++ endl) ;;
    ret false
  else if catches HStdException (dyn e) then
    serr ("Unknown exception during compilation" ++
          (match what e with
           | Some w => ": " ++ w
           | None => "."
           end) ++ endl) ;;
    ret false
  else
    serr ("Unknown exception during compilation." ++ endl) ;;
    ret false.

Definition processInput : M bool :=
  loaded <- readInputFilesAndConfigureRemappings ;;
  if negb loaded then ret false
  else
    modify (set_compiler true) ;;
    try_catch
      (successful <- configureAndCompile ;;
       if negb successful then ret false else ret true)
      handleFault.

(** *** handleAst (lines 516-543) *)

(** Lines 539-540, the body of the loop that prints the trees. *)
Definition printTree (legacyFormat : bool) (sourceCode : string * string) : M unit :=
  sout (endl ++ "======= " ++ fst sourceCode ++ " =======" ++ endl) ;;
  deref ;;
  sout (ASTJsonConverter_print env legacyFormat (fst sourceCode)).

Definition handleAst (_argStr : string) : M unit :=
  title <-
    (if String.eqb _argStr g_argAstJson then ret "JSON AST:"
     else if String.eqb _argStr g_argAstCompactJson then ret "JSON AST (compact format):"
     else throw (InternalCompilerError "Illegal argStr for AST")) ;;
  s <- get ;;
  if given s _argStr then
    for_each (m_sourceCodes s) (fun sourceCode => deref) ;;
    let legacyFormat := negb (given s g_argAstCompactJson) in
    sout (title ++ endl ++ endl) ;;
    for_each (m_sourceCodes s) (printTree legacyFormat)
  else ret tt.

(** *** outputCompilationResults and actOnInput (lines 545-577) *)

(** Lines 566-570, the body of the loop over the contracts. *)
Definition contractOutput (contract : string) : M unit :=
  s <- get ;;
  when (needsHumanTargetedStdout (m_args s))
    (sout (endl ++ "======= " ++ contract ++ " =======" ++ endl)) ;;
  handleNatspec true contract ;;
  handleNatspec false contract.

Definition outputCompilationResults : M unit :=
  handleAst g_argAstJson ;;
  handleAst g_argAstCompactJson ;;
  deref ;;
  if negb (compilationSuccessful env) then
    serr (endl ++ "Compilation halted after AST generation due to errors." ++ endl)
  else
    deref ;;
    let contracts := contractNames env in
    for_each contracts contractOutput ;;
    s <- get ;;
    when (negb (g_hasOutput s))
      (serr ("Compiler run successful, no output requested." ++ endl)).

Definition actOnInput : M bool :=
  outputCompilationResults ;;
  s <- get ;;
  ret (negb (m_error s)).

End Driver.

(** * What the theorems speak of *)

(** ** The messages *)

Definition mutually_exclusive_message : string :=
  "Option tvm-abi and tvm are mutually exclusive." ++ endl.

Definition no_input_files_message : string :=
  "No input files given. If you wish to use the standard input please specify "
  ++ dquote ++ "-" ++ dquote ++ " explicitly." ++ endl.


Definition halt_notice : string :=
  endl ++ "Compilation halted after AST generation due to errors." ++ endl.

Definition advisory : string :=
  "Compiler run successful, no output requested." ++ endl.

(** The banner of a source unit or of a contract. *)
Definition banner (name : string) : string :=
  endl ++ "======= " ++ name ++ " =======" ++ endl.

(** ** The input token *)

(** The character [c] occurs in [s]: [s] is some text, then [c], then some
    text. *)
Definition contains (c : ascii) (s : string) : Prop :=
  exists before rest, s = (before ++ String c rest)%string.

(** [rest] is what follows the first [c] of [s]. *)
Definition follows_first (c : ascii) (s rest : string) : Prop :=
  exists before, s = (before ++ String c rest)%string /\ ~ contains c before.


(** ** The categories of faults *)

(** The categories the handlers of [processInput] tell apart. *)
Inductive category :=
| CompilerErrorCategory
| InternalCompilerErrorCategory
| UnimplementedFeatureCategory
| DocstringParsingCategory
| StructuredErrorCategory
| UnstructuredCategory
| StdExceptionCategory
| UnknownCategory.

(** The category of a thrown object, from its dynamic class alone. *)
Definition category_of (e : exn) : category :=
  match dyn e with
  | DCompilerError => CompilerErrorCategory
  | DInternalCompilerError => InternalCompilerErrorCategory
  | DUnimplementedFeatureError => UnimplementedFeatureCategory
  | DError DocstringParsingError => DocstringParsingCategory
  | DError _ => StructuredErrorCategory
  | DOtherException => UnstructuredCategory
  | DStdException => StdExceptionCategory
  | DNonStd => UnknownCategory
  end.

(** The comment a thrown object carries, empty when it carries none. *)
Definition comment_text (e : exn) : string :=
  match errinfo_comment e with
  | Some c => c
  | None => EmptyString
  end.

(** A documentation parsing error that carries no comment: the one thrown
    object whose handler dereferences a null pointer. *)
Definition without_comment (e : exn) : Prop :=
  dyn e = DError DocstringParsingError /\ errinfo_comment e = None.

(** What is written on the diagnostic stream for a fault of each category. *)
Definition rendering (env : Env) (e : exn) : string :=
  match category_of e with
  | CompilerErrorCategory => printExceptionInformation env e "Compiler error"
  | InternalCompilerErrorCategory =>
      "Internal compiler error during compilation:" ++ endl ++ diagnostic_information e
  | UnimplementedFeatureCategory =>
      "Unimplemented feature:" ++ endl ++ diagnostic_information e
  | DocstringParsingCategory =>
      "Documentation parsing error: " ++ comment_text e ++ endl
  | StructuredErrorCategory => printExceptionInformation env e (typeName e)
  | UnstructuredCategory =>
      "Exception during compilation: " ++ diagnostic_information e ++ endl
  | StdExceptionCategory =>
      "Unknown exception during compilation" ++
      match what e with
      | Some w => ": " ++ w
      | None => "."
      end ++ endl
  | UnknownCategory => "Unknown exception during compilation." ++ endl
  end.

(** ** The allowed directories *)

(** The reading of the allowed directories as the parent directories of the
    loaded input files: every entry is the parent of the canonical path of
    a key of the source mapping. *)
Definition every_directory_from_a_loaded_file (env : Env) (s : CLI) : Prop :=
  forall d, In d (m_allowedDirectories s) ->
    exists k c,
      In k (map fst (m_sourceCodes s)) /\
      fs_canonical env k = inr c /\
      d = remove_filename env c.

(** Where an entry of the allowed directories comes from, for the input
    token [t]: the canonical path of the file the token names, which was
    loaded, or the target of the remapping the token holds. *)
Definition directory_origin (env : Env) (t : string) (extra : list string) : Prop :=
  (exists c,
     ~ contains "="%char t /\
     fs_exists env t = inr true /\
     fs_is_regular_file env t = inr true /\
     fs_canonical env t = inr c /\
     extra = [remove_filename env c]) \/
  (exists rest rm,
     follows_first "="%char t rest /\
     parseRemapping env t = Some rm /\
     extra = [remove_filename env rest]).

(** ** What the output stage writes *)

(** The state after the statements [sout() << ...] and [serr() << ...]
    that write the entries [l]: nothing changes when there is none. *)
Definition wrote (l : list (stream * string)) (s : CLI) : CLI :=
  match l with
  | [] => s
  | _ => set_out (out s ++ l) (set_hasOutput true s)
  end.

(** Whether the option [name] was given. *)
Definition requested (args : variables_map) (name : string) : bool :=
  Nat.ltb 0 (count args name).

Definition ast_title (argStr : string) : string :=
  if String.eqb argStr g_argAstJson then "JSON AST:"
  else "JSON AST (compact format):".

(** The listing of syntax trees that one of the two flags asks for: the
    title, then for each source unit, in the order of the mapping, its banner
    and its tree. *)
Definition ast_block (env : Env) (args : variables_map) (sources : SourceMap)
    (argStr : string) : list (stream * string) :=
  if requested args argStr then
    (Cout, (ast_title argStr ++ endl ++ endl)%string) ::
    flat_map (fun sourceCode : string * string =>
                [(Cout, banner (fst sourceCode));
                 (Cout, ASTJsonConverter_print env
                          (negb (requested args g_argAstCompactJson)) (fst sourceCode))])
             sources
  else [].

(** The whole syntax-tree stage: one listing for each of the two flags. *)
Definition syntax_trees (env : Env) (args : variables_map) (sources : SourceMap)
  : list (stream * string) :=
  ast_block env args sources g_argAstJson ++
  ast_block env args sources g_argAstCompactJson.

(** One kind of documentation of a contract: a title and the document. *)
Definition natspec_block (env : Env) (args : variables_map) (dev : bool)
    (contract : string) : list (stream * string) :=
  if requested args (if dev then g_argNatspecDev else g_argNatspecUser) then
    [(Cout, ((if dev then "Developer Documentation" else "User Documentation") ++ endl)%string);
     (Cout, (jsonPrettyPrint env
               (if dev then natspecDev env contract else natspecUser env contract)
             ++ endl)%string)]
  else [].

(** What is written for one contract. *)
Definition contract_block (env : Env) (args : variables_map) (contract : string)
  : list (stream * string) :=
  (if needsHumanTargetedStdout args then [(Cout, banner contract)] else []) ++
  natspec_block env args true contract ++
  natspec_block env args false contract.

Definition contracts_output (env : Env) (args : variables_map) : list (stream * string) :=
  flat_map (contract_block env args) (contractNames env).

Definition is_nil {A} (l : list A) : bool :=
  match l with
  | [] => true
  | _ => false
  end.

(** Everything [outputCompilationResults] writes from the state [s]. *)
Definition results_output (env : Env) (s : CLI) : list (stream * string) :=
  let trees := syntax_trees env (m_args s) (m_sourceCodes s) in
  if compilationSuccessful env then
    let body := trees ++ contracts_output env (m_args s) in
    body ++
    (if g_hasOutput s || negb (is_nil body) then [] else [(Cerr, advisory)])
  else trees ++ [(Cerr, halt_notice)].

(** What [outputCompilationResults] has written when it comes to its end,
    the advisory apart: the trees and the contracts, or the trees and the
    halt notice. *)
Definition written_before_the_end (env : Env) (s : CLI) : list (stream * string) :=
  syntax_trees env (m_args s) (m_sourceCodes s) ++
  (if compilationSuccessful env then contracts_output env (m_args s)
   else [(Cerr, halt_notice)]).

(** How often the text [t] was written on the stream [st]. *)
Definition occurrences (st : stream) (t : string) (l : list (stream * string)) : nat :=
  length (filter (fun x => stream_eqb (fst x) st && String.eqb (snd x) t) l).

(** ** The output flag *)

(** Some course of [compile()] ends with [didCompileSomething] set. *)
Fixpoint can_report (sc : script) : Prop :=
  match sc with
  | Done _ didCompileSomething _ => didCompileSomething = true
  | Fail _ => False
  | Read _ _ k => exists r, can_report (k r)
  end.

(** The reading of the flag as set by writes and by nothing else: from a
    state with the flag down, [processInput] leaves it up only if it wrote. *)
Definition flag_set_by_writes_only (env : Env) (s : CLI) : Prop :=
  g_hasOutput s = false ->
  g_hasOutput (snd (processInput env s)) = true ->
  out (snd (processInput env s)) <> out s.

(** * Sample environments and runs *)

Module Sample.

Fixpoint has_slash (s : string) : bool :=
  match s with
  | EmptyString => false
  | String a rest => Ascii.eqb a "/"%char || has_slash rest
  end.

(** The directory part of a path, up to and including the last slash. *)
Fixpoint directory_of (s : string) : string :=
  match s with
  | EmptyString => EmptyString
  | String a rest =>
      if Ascii.eqb a "/"%char || has_slash rest
      then String a (directory_of rest)
      else EmptyString
  end.

(** A parser of remappings [context:prefix=target], the context optional
    and the prefix not empty. *)
Definition parse_remapping (s : string) : option Remapping :=
  match after_first "="%char s with
  | None => None
  | Some tgt =>
      let before := before_first "="%char s in
      let r :=
        match after_first ":"%char before with
        | Some p => mkRemapping (before_first ":"%char before) p tgt
        | None => mkRemapping "" before tgt
        end in
      if String.eqb (prefix r) "" then None else Some r
  end.

(** A file system that holds the regular file [a.sol] in [/work] and the
    directory [lib]. *)
Definition is_file (p : string) : bool :=
  String.eqb p "a.sol" || String.eqb p "/work/a.sol".

Definition is_dir (p : string) : bool :=
  String.eqb p "lib" || String.eqb p "/work/lib".

Definition absolute (p : string) : string :=
  if String.prefix "/" p then p else ("/work/" ++ p)%string.

Definition filesystem_error : exn :=
  mkExn DStdException None "" (Some "boost::filesystem::canonical: No such file or directory") "".

Definition canonical (p : string) : exn + string :=
  if is_file p || is_dir p then inr (absolute p) else inl filesystem_error.

Definition po_message (e : po_error) : string :=
  match e with
  | unknown_option t => "unrecognised option '" ++ t ++ "'"
  | multiple_occurrences n => "option '--" ++ n ++ "' cannot be specified more than once"
  | missing_parameter n => "the required argument for option '--" ++ n ++ "' is missing"
  | extra_parameter n => "option '--" ++ n ++ "' does not take any arguments"
  end.

(** The environment, for an engine that answers the configuration calls
    with [calls], runs [sc] when it compiles, and afterwards reports
    [successful] and the contracts [contracts]. *)
Definition environment (calls : engine_call -> option exn) (sc : script)
    (successful : bool) (contracts : list string) : Env :=
  mkEnv
    (fun p => inr (is_file p || is_dir p))
    (fun p => inr (is_file p))
    canonical
    (fun p => inr (absolute p))
    (fun p => p)
    directory_of
    (fun p => if is_file p then "contract C {}" else "")
    (fun j => j)
    parse_remapping
    "source"
    calls
    sc
    successful
    contracts
    (fun c => "{devdoc of " ++ c ++ "}")%string
    (fun c => "{userdoc of " ++ c ++ "}")%string
    (fun legacy name =>
       (if legacy then "{legacy ast of " else "{compact ast of ") ++ name ++ "}")%string
    (fun e => "Error: " ++ comment_text e ++ endl)%string
    (fun e label => label ++ ": " ++ comment_text e ++ endl)%string
    (fun c => "Throw location unknown" ++ endl ++ "[errinfo_comment] = " ++ c ++ endl)%string
    "usage"
    "0.30.0"
    "other licenses"
    "license"
    po_message
    false
    false.

(** An engine that accepts every call, compiles without reading anything
    and reports one contract. *)
Definition quiet_engine : Env :=
  environment (fun _ => None) (Done true false []) true ["C"].

End Sample.

(** An engine whose call [WithOptimizations] throws an internal compiler
    error. *)
Definition internal_error : exn :=
  mkExn DInternalCompilerError (Some "Stack too deep") "" None
    ("Throw location unknown" ++ endl ++ "[errinfo_comment] = Stack too deep" ++ endl).

Definition failing_engine : Env :=
  Sample.environment
    (fun c => match c with
              | WithOptimizations => Some internal_error
              | _ => None
              end)
    (Done true false []) true ["C"].

(** An engine whose [compile()] throws a documentation parsing error that
    carries no comment. *)
Definition docstring_error : exn :=
  mkExn (DError DocstringParsingError) None "DocstringParsingError" None
    ("Throw location unknown" ++ endl).

Definition docstring_engine : Env :=
  Sample.environment (fun _ => None) (Fail docstring_error) false [].

(** The state after [parseArguments] for the command line [solc a.sol]. *)
Definition one_file : CLI :=
  set_args [(g_argInputFile, Some "a.sol")] fresh.

(** The state after [parseArguments] for a command line whose only
    positional argument is a remapping. *)
Definition one_remapping : CLI :=
  set_args [(g_argInputFile, Some "lib=/vendor/x.sol")] fresh.

(** The members after [parseArguments] and [processInput] ran on the
    command line [argv], in a new object. *)
Definition after_processInput (env : Env) (argv : list string) : CLI :=
  snd (processInput env (snd (parseArguments env argv fresh))).

(** What [actOnInput] then writes, with everything written before it. *)
Definition output_of_run (env : Env) (argv : list string) : list (stream * string) :=
  out (snd (actOnInput env (after_processInput env argv))).

(** An engine that reports that it compiled something. *)
Definition compiling_engine : Env :=
  Sample.environment (fun _ => None) (Done true true []) true ["C"].

(** The members when [actOnInput] starts, for three command lines. *)
Definition compact_tree_run : CLI :=
  after_processInput Sample.quiet_engine ["solc"; "--ast-compact-json"; "a.sol"].

Definition userdoc_run : CLI :=
  after_processInput Sample.quiet_engine ["solc"; "--userdoc"; "a.sol"].

Definition plain_run : CLI :=
  after_processInput Sample.quiet_engine ["solc"; "a.sol"].

(** * Relations between the state before and the state after *)

(** [Inv R m]: whatever [m] does and however it ends, the state it leaves
    is related by [R] to the state it started from. *)
Definition Inv {A} (R : CLI -> CLI -> Prop) (m : M A) : Prop :=
  forall s, R s (snd (m s)).

Record preorder (R : CLI -> CLI -> Prop) : Prop := mkPreorder {
  pre_refl : forall s, R s s;
  pre_trans : forall s1 s2 s3, R s1 s2 -> R s2 s3 -> R s1 s3
}.

(** [keeps f]: the member [f] is the same before and after. *)
Definition keeps {X} (f : CLI -> X) (s s' : CLI) : Prop := f s' = f s.

(** An outcome that stays inside the language: a value or a throw. *)
Definition returns_or_throws {A} (o : outcome A) : Prop :=
  match o with
  | Ret _ | Throw _ => True
  | Exit _ | Undefined => False
  end.

(** [Safe m]: run with the engine constructed, [m] returns or throws and
    leaves the engine constructed. *)
Definition Safe {A} (m : M A) : Prop :=
  forall s, m_compiler s = true ->
    m_compiler (snd (m s)) = true /\ returns_or_throws (fst (m s)).

(** [tracks X]: the output only grows; a write, or the flag being set
    before, leaves the flag set; and the flag is set afterwards only if it
    was set before, or something was written, or [X]. *)
Definition tracks (X : Prop) (s s' : CLI) : Prop :=
  exists new,
    out s' = out s ++ new /\
    (g_hasOutput s = true \/ new <> [] -> g_hasOutput s' = true) /\
    (g_hasOutput s' = true -> g_hasOutput s = true \/ new <> [] \/ X).


(** * Further properties: what they speak of *)

(** ** The calls that configure the engine *)

(** The string the option [name] holds, when it holds one. *)
Definition value_of (args : variables_map) (name : string) : string :=
  match vm_find name args with
  | Some (Some v) => v
  | _ => EmptyString
  end.

(** The option is absent or holds a string. *)
Definition absent_or_string (args : variables_map) (name : string) : Prop :=
  vm_find name args <> Some None.

(** The calls [configure] makes on an engine that accepts them all, in
    their order, from the state [s]. *)
Definition configure_calls (s : CLI) : list engine_call :=
  let args := m_args s in
  (if requested args g_argInputFile then [SetRemappings (m_remappings s)] else []) ++
  [SetSources (m_sourceCodes s)] ++
  (if requested args g_argTvmUnsavedStructs then [SetStructWarning true] else []) ++
  (if requested args g_argSetContract
   then [SetMainContract (value_of args g_argSetContract)] else []) ++
  (if requested args g_argOutputDir
   then [SetOutputFolder (value_of args g_argOutputDir)] else []) ++
  (if requested args g_argFile
   then [SetFileNamePrefix (value_of args g_argFile)] else []) ++
  (if requested args g_argTvmABI then [GenerateAbi] else []) ++
  (if requested args g_argTvm then [GenerateCode] else []) ++
  (if negb (requested args g_argTvm) && negb (requested args g_argTvmABI)
   then [GenerateCode; GenerateAbi] else []) ++
  [WithOptimizations] ++
  (if requested args g_argDebug then [WithDebugInfo] else []) ++
  [SetInputFile (value_of args g_argInputFile)].

Definition deprecation_notice : string :=
  "Flag '--tvm-optimize' is deprecated. Code is optimized by default." ++ endl.

(** [Runs args m a calls written]: on a constructed engine and with the
    options [args], [m] returns [a] after making the calls [calls] on the
    engine and writing [written]; it keeps the options, the sources, the
    remappings and the log of the read callback. *)
Definition Runs {A} (args : variables_map) (m : M A) (a : A)
    (calls : list engine_call) (written : list (stream * string)) : Prop :=
  forall s, m_compiler s = true -> m_args s = args ->
    exists s',
      m s = (Ret a, s') /\
      m_compiler s' = true /\
      m_args s' = args /\
      engine_log s' = engine_log s ++ calls /\
      out s' = out s ++ written /\
      g_hasOutput s' = g_hasOutput s || negb (is_nil written) /\
      m_sourceCodes s' = m_sourceCodes s /\
      m_remappings s' = m_remappings s /\
      reader_log s' = reader_log s.

(** [calls_satisfy P]: the log of engine calls only grows, and every call
    added satisfies [P]. *)
Definition calls_satisfy (P : engine_call -> Prop) (s s' : CLI) : Prop :=
  exists new, engine_log s' = engine_log s ++ new /\ Forall P new.

(** The calls that select an artifact are justified by the options: the
    interface description when [tvm-abi] was given or [tvm] was not, the
    code when [tvm] was given or [tvm-abi] was not. *)
Definition selection_justified (args : variables_map) (c : engine_call) : Prop :=
  match c with
  | GenerateAbi => requested args g_argTvmABI = true \/ requested args g_argTvm = false
  | GenerateCode => requested args g_argTvm = true \/ requested args g_argTvmABI = false
  | _ => True
  end.

(** ** The source mapping *)

(** [m_sourceCodes.find(k)], as a value. *)
Fixpoint map_find (k : string) (m : SourceMap) : option string :=
  match m with
  | [] => None
  | (k', v) :: rest => if String.eqb k' k then Some v else map_find k rest
  end.

(** No unit of the source mapping is lost. *)
Definition sources_kept (s s' : CLI) : Prop :=
  forall k, In k (map fst (m_sourceCodes s)) -> In k (map fst (m_sourceCodes s')).

(** ** Sample states and engines *)

(** The state in which [configure] starts for
    [solc --tvm-abi --tvm-optimize -c Wallet a.sol]: the file is loaded and
    the engine constructed. *)
Definition abi_only_state : CLI :=
  set_compiler true
    (snd (readInputFilesAndConfigureRemappings Sample.quiet_engine
            (set_args [(g_argTvmABI, None); (g_argTvmOptimize, None);
                       (g_argSetContract, Some "Wallet");
                       (g_argInputFile, Some "a.sol")] fresh))).

Definition type_error (msg : string) : exn :=
  mkExn (DError TypeError) (Some msg) "TypeError" None msg.

(** An engine whose compilation fails with two errors after importing
    [a.sol]. *)
Definition erring_engine : Env :=
  Sample.environment (fun _ => None)
    (Read "source" "a.sol"
       (fun _ => Done false false [type_error "first"; type_error "second"]))
    false [].

(** The members after [parseArguments] and [processInput] ran on a new
    object, for an engine whose compilation failed. *)
Definition failed_run : CLI :=
  after_processInput erring_engine ["solc"; "a.sol"].

(** The state after [parseArguments] for [solc lib] and for
    [solc missing.sol], in the sample file system, where [lib] is a
    directory and [missing.sol] does not exist. *)
Definition directory_given : CLI :=
  set_args [(g_argInputFile, Some "lib")] fresh.

Definition missing_given : CLI :=
  set_args [(g_argInputFile, Some "missing.sol")] fresh.

(** The texts of [version()] and of the missing file name. *)
Definition version_text (env : Env) : string :=
  "solc, the solidity compiler commandline interface" ++ endl ++
  "Version: " ++ VersionString env ++ endl.

Definition missing_filename_message : string := "Missing filename." ++ endl.

(** The first argument after [argv[0]] that is not the flag
    [--tvm-peephole]. *)
Definition peephole_target (argv : list string) : option string :=
  find (fun a => negb (String.eqb a "--tvm-peephole")) (tl argv).

(** ** The two streams *)

(** [writes_on st]: the output only grows, and every entry added is on
    the stream [st]. *)
Definition writes_on (st : stream) (s s' : CLI) : Prop :=
  exists new, out s' = out s ++ new /\ Forall (fun x => fst x = st) new.
(** * Proofs *)

(** ** The rules of [Inv] *)

Section Invariants.

Variable R : CLI -> CLI -> Prop.
Hypothesis HR : preorder R.

Lemma Inv_ret A (a : A) : Inv R (ret a).
Proof. intro s. apply (pre_refl HR). Qed.

Lemma Inv_throw A (e : exn) : Inv R (@throw A e).
Proof. intro s. apply (pre_refl HR). Qed.

Lemma Inv_exit A (c : nat) : Inv R (@exit A c).
Proof. intro s. apply (pre_refl HR). Qed.

Lemma Inv_get : Inv R get.
Proof. intro s. apply (pre_refl HR). Qed.

Lemma Inv_lift A (r : exn + A) : Inv R (lift r).
Proof. destruct r; [apply Inv_throw | apply Inv_ret]. Qed.

Lemma Inv_deref : Inv R deref.
Proof. intro s. unfold deref. destruct (m_compiler s); apply (pre_refl HR). Qed.

Lemma Inv_modify (f : CLI -> CLI) : (forall s, R s (f s)) -> Inv R (modify f).
Proof. intros H s. apply H. Qed.

Lemma Inv_bind A B (m : M A) (k : A -> M B) :
  Inv R m -> (forall a, Inv R (k a)) -> Inv R (bind m k).
Proof.
  intros Hm Hk s. unfold bind.
  specialize (Hm s). destruct (m s) as [[a | e | c |] s']; simpl in *; auto.
  eapply (pre_trans HR); [exact Hm | apply Hk].
Qed.

Lemma Inv_try_catch A (m : M A) (h : exn -> M A) :
  Inv R m -> (forall e, Inv R (h e)) -> Inv R (try_catch m h).
Proof.
  intros Hm Hh s. unfold try_catch.
  specialize (Hm s). destruct (m s) as [[a | e | c |] s']; simpl in *; auto.
  eapply (pre_trans HR); [exact Hm | apply Hh].
Qed.

Lemma Inv_for_each A (l : list A) (body : A -> M unit) :
  (forall a, Inv R (body a)) -> Inv R (for_each l body).
Proof.
  intro Hb. induction l as [| a l IH]; simpl.
  - apply Inv_ret.
  - apply Inv_bind; auto.
Qed.

Lemma Inv_when (b : bool) (m : M unit) : Inv R m -> Inv R (when b m).
Proof. intro H. destruct b; simpl; [exact H | apply Inv_ret]. Qed.

Lemma Inv_as_string name : Inv R (as_string name).
Proof.
  unfold as_string. apply Inv_bind; [apply Inv_get |].
  intro s. destruct (vm_find name (m_args s)) as [[v |] |];
    first [apply Inv_ret | apply Inv_throw].
Qed.

End Invariants.

(** One step of a proof of [Inv R m], following the shape of [m]; [base]
    proves the facts about the single assignments. *)
Ltac inv_step HR base :=
  match goal with
  | |- Inv _ (bind _ _) => apply (Inv_bind HR); [| intro]
  | |- Inv _ (ret _) => apply (Inv_ret HR)
  | |- Inv _ (throw _) => apply (Inv_throw HR)
  | |- Inv _ (exit _) => apply (Inv_exit HR)
  | |- Inv _ get => apply (Inv_get HR)
  | |- Inv _ (lift _) => apply (Inv_lift HR)
  | |- Inv _ deref => apply (Inv_deref HR)
  | |- Inv _ (as_string _) => apply (Inv_as_string HR)
  | |- Inv _ (when _ _) => apply (Inv_when HR)
  | |- Inv _ (for_each _ _) => apply (Inv_for_each HR); intro
  | |- Inv _ (try_catch _ _) => apply (Inv_try_catch HR); [| intro]
  | |- Inv _ (modify _) => apply Inv_modify; intro; base
  | |- Inv _ (sout _) => apply Inv_modify; intro; base
  | |- Inv _ (serr _) => apply Inv_modify; intro; base
  | |- Inv _ (serr_used _ _) => apply Inv_modify; intro; base
  | |- Inv _ (formatter_print _) => apply Inv_modify; intro; base
  | |- Inv _ (if ?b then _ else _) => destruct b
  | |- Inv _ (match ?x with _ => _ end) => destruct x
  | |- Inv _ (let '(_, _) := ?x in _) => destruct x
  end.

Ltac inv_auto HR base := repeat (inv_step HR base).


(** ** The two artifact flags exclude each other *)

(** C6. When the command line parses and the stored options hold both
    [tvm-abi] and [tvm], [parseArguments] returns [false] after writing the
    message that names both flags on the diagnostic stream, and it has
    touched neither the engine (not constructed, no call logged), nor the
    read callback, nor the sources. *)
Theorem parseArguments_rejects_both_artifact_flags
    (env : Env) (argv : list string) (s : CLI)
    (options : list parsed_option) (m : variables_map) :
  cmdline_run None false (tl argv) = inr options ->
  store options (m_args s) = (None, m) ->
  count m g_argTvmABI = 1 ->
  count m g_argTvm = 1 ->
  let r := parseArguments env argv s in
  fst r = Ret false /\
  out (snd r) = out s ++ [(Cerr, mutually_exclusive_message)] /\
  m_compiler (snd r) = m_compiler s /\
  engine_log (snd r) = engine_log s /\
  reader_log (snd r) = reader_log s /\
  m_sourceCodes (snd r) = m_sourceCodes s /\
  m_remappings (snd r) = m_remappings s.
Proof.
  intros Hrun Hstore Habi Htvm.
  unfold parseArguments, parseCommandLine, bind, modify, given, get, ret. simpl.
  rewrite Hrun. simpl. rewrite Hstore. simpl.
  rewrite Habi, Htvm. simpl.
  repeat split; reflexivity.
Qed.

Lemma parseArguments_rejects_both_artifact_flags_witness :
  let r := parseArguments Sample.quiet_engine
             ["solc"; "--tvm"; "--tvm-abi"; "a.sol"]%string fresh in
  fst r = Ret false /\
  out (snd r) = [(Cerr, mutually_exclusive_message)] /\
  m_compiler (snd r) = false /\
  engine_log (snd r) = [] /\
  reader_log (snd r) = [] /\
  m_sourceCodes (snd r) = [] /\
  m_remappings (snd r) = [].
Proof.
  apply (@parseArguments_rejects_both_artifact_flags Sample.quiet_engine
           ["solc"; "--tvm"; "--tvm-abi"; "a.sol"]%string fresh
           [(g_argTvm, None); (g_argTvmABI, None); (g_argInputFile, Some "a.sol"%string)]
           [(g_argTvm, None); (g_argTvmABI, None); (g_argInputFile, Some "a.sol"%string)]);
    reflexivity.
Defined.

(** ** The input token: remapping or path *)

Lemma given_of_find (s : CLI) (name : string) (v : option string) :
  vm_find name (m_args s) = Some v -> given s name = true.
Proof. intro H. unfold given, count. rewrite H. reflexivity. Qed.

Lemma as_string_found (s : CLI) (name v : string) :
  vm_find name (m_args s) = Some (Some v) -> as_string name s = (Ret v, s).
Proof. intro H. unfold as_string, bind, get. rewrite H. reflexivity. Qed.

Lemma readInput_token (env : Env) (s : CLI) (t : string) :
  vm_find g_argInputFile (m_args s) = Some (Some t) ->
  readInputFilesAndConfigureRemappings env s = readToken env t s.
Proof.
  intro H. unfold readInputFilesAndConfigureRemappings, bind at 1, get.
  rewrite (given_of_find _ _ H). unfold bind. rewrite (as_string_found _ _ H).
  reflexivity.
Qed.

Lemma checkSourcesGiven_state (s : CLI) :
  m_sourceCodes (snd (checkSourcesGiven s)) = m_sourceCodes s /\
  m_remappings (snd (checkSourcesGiven s)) = m_remappings s /\
  m_allowedDirectories (snd (checkSourcesGiven s)) = m_allowedDirectories s.
Proof.
  unfold checkSourcesGiven, bind, get.
  destruct (Nat.eqb (length (m_sourceCodes s)) 0); simpl; auto.
Qed.

Lemma after_first_found (c : ascii) (before rest : string) :
  exists rest', after_first c (before ++ String c rest) = Some rest'.
Proof.
  induction before as [| a before IH]; cbn [String.append after_first].
  - rewrite Ascii.eqb_refl. eauto.
  - destruct (Ascii.eqb a c); eauto.
Qed.

Lemma after_first_cut (c : ascii) (s rest : string) :
  after_first c s = Some rest ->
  exists before, s = (before ++ String c rest)%string /\ after_first c before = None.
Proof.
  revert rest. induction s as [| a s IH]; intros rest H; cbn [after_first] in H.
  - discriminate.
  - destruct (Ascii.eqb a c) eqn:E.
    + apply Ascii.eqb_eq in E. injection H as H. subst.
      exists EmptyString. split; reflexivity.
    + destruct (IH rest H) as (before & Hs & Hb).
      exists (String a before). cbn [after_first String.append].
      rewrite E, Hs. auto.
Qed.

(** The search of the driver finds nothing exactly in the strings that do
    not hold the character. *)
Lemma after_first_none (c : ascii) (s : string) :
  after_first c s = None <-> ~ contains c s.
Proof.
  split.
  - intros H (before & rest & Hs). subst s.
    destruct (after_first_found c before rest) as (rest' & H'). congruence.
  - intro H. destruct (after_first c s) as [rest |] eqn:E; [| reflexivity].
    destruct (after_first_cut c s E) as (before & Hs & _).
    exfalso. apply H. exists before, rest. exact Hs.
Qed.

(** What the search of the driver finds is what follows the first
    occurrence. *)
Lemma after_first_some (c : ascii) (s rest : string) :
  after_first c s = Some rest <-> follows_first c s rest.
Proof.
  split.
  - intro H. destruct (after_first_cut c s H) as (before & Hs & Hb).
    exists before. split; [exact Hs | apply after_first_none; exact Hb].
  - intros (before & Hs & Hb). subst s. apply after_first_none in Hb. revert Hb.
    induction before as [| a before IH]; intro Hb; cbn [String.append after_first].
    + rewrite Ascii.eqb_refl. reflexivity.
    + cbn [after_first] in Hb. destruct (Ascii.eqb a c); [discriminate |].
      apply IH. exact Hb.
Qed.




(** ** A remapping alone is no input *)

Lemma processInput_remapping_alone
    (env : Env) (s : CLI) (t rest : string) (rm : Remapping) :
  vm_find g_argInputFile (m_args s) = Some (Some t) ->
  after_first "="%char t = Some rest ->
  parseRemapping env t = Some rm ->
  m_sourceCodes s = [] ->
  processInput env s =
  (Ret false,
   set_out (out s ++ [(Cerr, no_input_files_message)])
     (set_hasOutput true
        (set_allowedDirectories (m_allowedDirectories s ++ [remove_filename env rest])
           (set_remappings (m_remappings s ++ [rm]) s)))).
Proof.
  intros Hfind Heq Hparse Hempty.
  unfold processInput, bind. rewrite (readInput_token env _ Hfind).
  unfold readToken. rewrite Heq, Hparse.
  unfold allowDirectoryOf, checkSourcesGiven, bind, modify, get. simpl.
  rewrite Hempty. reflexivity.
Qed.

(** C10. When the input token holds an equals sign and the engine's parser
    accepts it as a remapping, nothing is loaded from it: starting with no
    sources, [processInput] records the remapping, finds the source mapping
    still empty, writes the no-input-files message and returns [false]; the
    engine is neither constructed nor called, and the read callback is not
    called. *)
Theorem remapping_alone_is_no_input
    (env : Env) (s : CLI) (t rest : string) (rm : Remapping) :
  vm_find g_argInputFile (m_args s) = Some (Some t) ->
  after_first "="%char t = Some rest ->
  parseRemapping env t = Some rm ->
  m_sourceCodes s = [] ->
  let r := processInput env s in
  fst r = Ret false /\
  m_sourceCodes (snd r) = [] /\
  m_remappings (snd r) = m_remappings s ++ [rm] /\
  out (snd r) = out s ++ [(Cerr, no_input_files_message)] /\
  m_compiler (snd r) = m_compiler s /\
  engine_log (snd r) = engine_log s /\
  reader_log (snd r) = reader_log s.
Proof.
  intros Hfind Heq Hparse Hempty r. subst r.
  rewrite (processInput_remapping_alone env s Hfind Heq Hparse Hempty). simpl.
  repeat split; auto.
Qed.

Lemma remapping_alone_is_no_input_witness :
  let r := processInput Sample.quiet_engine
             (set_args [(g_argInputFile, Some "ctxA:lib=./vendor"%string)] fresh) in
  fst r = Ret false /\
  m_sourceCodes (snd r) = [] /\
  m_remappings (snd r) = [mkRemapping "ctxA" "lib" "./vendor"] /\
  out (snd r) = [(Cerr, no_input_files_message)] /\
  m_compiler (snd r) = false /\
  engine_log (snd r) = [] /\
  reader_log (snd r) = [].
Proof.
  apply (@remapping_alone_is_no_input Sample.quiet_engine
           (set_args [(g_argInputFile, Some "ctxA:lib=./vendor"%string)] fresh)
           "ctxA:lib=./vendor"%string "./vendor"%string
           (mkRemapping "ctxA" "lib" "./vendor"));
    reflexivity.
Defined.

(** ** The read callback *)

(** C4. For every kind and path, in every state and environment, the read
    callback returns a [ReadResult]; it neither throws nor exits.  A kind
    other than the read-file literal gives a failure that carries the
    diagnostic of the internal compiler error; a canonical path that does
    not exist gives the failure [File not found.]; one that is not a regular
    file gives [Not a valid file.]; otherwise the content of the canonical
    path is recorded under the path as it was asked for (in its generic
    spelling) and returned with success.  A throw of any file-system
    operation becomes a failure, and no failure changes the sources. *)
Theorem fileReader_returns_result (env : Env) (kind path : string) (s : CLI) :
  exists r s',
    fileReader env kind path s = (Ret r, s') /\
    out s' = out s /\
    if String.eqb kind (kindString_ReadFile env) then
      match fs_weakly_canonical env path with
      | inl _ => success r = false /\ m_sourceCodes s' = m_sourceCodes s
      | inr canonicalPath =>
          match fs_exists env canonicalPath with
          | inl _ => success r = false /\ m_sourceCodes s' = m_sourceCodes s
          | inr false =>
              r = mkResult false "File not found." /\
              m_sourceCodes s' = m_sourceCodes s
          | inr true =>
              match fs_is_regular_file env canonicalPath with
              | inl _ => success r = false /\ m_sourceCodes s' = m_sourceCodes s
              | inr false =>
                  r = mkResult false "Not a valid file." /\
                  m_sourceCodes s' = m_sourceCodes s
              | inr true =>
                  r = mkResult true (readFileAsString env canonicalPath) /\
                  m_sourceCodes s' =
                    map_set (generic_string env path)
                      (readFileAsString env canonicalPath) (m_sourceCodes s)
              end
          end
      end
    else
      r = mkResult false
            ("Exception in read callback: " ++
             boost_diagnostic env ("ReadFile callback used as callback kind " ++ kind)) /\
      m_sourceCodes s' = m_sourceCodes s.
Proof.
  unfold fileReader, bind, try_catch, modify, lift, throw, ret. simpl.
  destruct (String.eqb kind (kindString_ReadFile env)); simpl;
    [destruct (fs_weakly_canonical env path) as [e | c]; simpl;
       [| destruct (fs_exists env c) as [e | [|]]; simpl;
            [| destruct (fs_is_regular_file env c) as [e | [|]]; simpl |]] |];
    try (destruct (dyn e); simpl);
    do 2 eexists; repeat split; reflexivity.
Qed.

(** ** Faults of the configuration and of the invocation *)

Section Safety.

Variable env : Env.

Lemma Safe_ret A (a : A) : Safe (ret a).
Proof. intros s H. simpl. auto. Qed.

Lemma Safe_throw A (e : exn) : Safe (@throw A e).
Proof. intros s H. simpl. auto. Qed.

Lemma Safe_get : Safe get.
Proof. intros s H. simpl. auto. Qed.

Lemma Safe_lift A (r : exn + A) : Safe (lift r).
Proof. destruct r; [apply Safe_throw | apply Safe_ret]. Qed.

Lemma Safe_deref : Safe deref.
Proof. intros s H. unfold deref. rewrite H. simpl. auto. Qed.

Lemma Safe_modify (f : CLI -> CLI) :
  (forall s, m_compiler (f s) = m_compiler s) -> Safe (modify f).
Proof. intros Hf s H. simpl. rewrite Hf. auto. Qed.

Lemma Safe_bind A B (m : M A) (k : A -> M B) :
  Safe m -> (forall a, Safe (k a)) -> Safe (bind m k).
Proof.
  intros Hm Hk s H. unfold bind.
  destruct (Hm s H) as [H1 H2].
  destruct (m s) as [[a | e | c |] s']; simpl in *; auto.
  apply Hk. exact H1.
Qed.

Lemma Safe_try_catch A (m : M A) (h : exn -> M A) :
  Safe m -> (forall e, Safe (h e)) -> Safe (try_catch m h).
Proof.
  intros Hm Hh s H. unfold try_catch.
  destruct (Hm s H) as [H1 H2].
  destruct (m s) as [[a | e | c |] s']; simpl in *; auto.
  apply Hh. exact H1.
Qed.

Lemma Safe_for_each A (l : list A) (body : A -> M unit) :
  (forall a, Safe (body a)) -> Safe (for_each l body).
Proof.
  intro Hb. induction l as [| a l IH]; simpl.
  - apply Safe_ret.
  - apply Safe_bind; auto.
Qed.

Lemma Safe_when (b : bool) (m : M unit) : Safe m -> Safe (when b m).
Proof. intro H. destruct b; simpl; [exact H | apply Safe_ret]. Qed.

Lemma Safe_as_string name : Safe (as_string name).
Proof.
  unfold as_string. apply Safe_bind; [apply Safe_get |].
  intro s. destruct (vm_find name (m_args s)) as [[v |] |];
    first [apply Safe_ret | apply Safe_throw].
Qed.

Ltac safe_step :=
  match goal with
  | |- Safe (bind _ _) => apply Safe_bind; [| intro]
  | |- Safe (ret _) => apply Safe_ret
  | |- Safe (throw _) => apply Safe_throw
  | |- Safe get => apply Safe_get
  | |- Safe (lift _) => apply Safe_lift
  | |- Safe deref => apply Safe_deref
  | |- Safe (as_string _) => apply Safe_as_string
  | |- Safe (when _ _) => apply Safe_when
  | |- Safe (for_each _ _) => apply Safe_for_each; intro
  | |- Safe (try_catch _ _) => apply Safe_try_catch; [| intro]
  | |- Safe (modify _) => apply Safe_modify; intro; reflexivity
  | |- Safe (serr _) => apply Safe_modify; intro; reflexivity
  | |- Safe (sout _) => apply Safe_modify; intro; reflexivity
  | |- Safe (formatter_print _) => apply Safe_modify; intro; reflexivity
  | |- Safe (if ?b then _ else _) => destruct b
  | |- Safe (match ?x with _ => _ end) => destruct x
  end.

Lemma Safe_fileReader kind path : Safe (fileReader env kind path).
Proof. unfold fileReader. repeat safe_step. Qed.

Lemma Safe_call c : Safe (call env c).
Proof. unfold call. repeat safe_step. Qed.

Lemma Safe_run_script sc : Safe (run_script env sc).
Proof.
  induction sc as [a b errs | e | kind path k IH]; simpl.
  - apply Safe_ret.
  - apply Safe_throw.
  - apply Safe_bind; [apply Safe_fileReader | exact IH].
Qed.

Lemma Safe_compile : Safe (compile env).
Proof. unfold compile. repeat safe_step. apply Safe_run_script. Qed.

Lemma Safe_configure : Safe (configure env).
Proof. unfold configure. repeat (first [apply Safe_call | safe_step]). Qed.

Lemma Safe_invoke : Safe (invoke env).
Proof.
  unfold invoke. apply Safe_bind; [apply Safe_compile |].
  intros [[successful didCompileSomething] errors].
  unfold reportError. repeat safe_step.
Qed.

Lemma Safe_configureAndCompile : Safe (configureAndCompile env).
Proof.
  unfold configureAndCompile. apply Safe_bind; [apply Safe_configure |].
  intro. apply Safe_invoke.
Qed.

(** The handlers: whatever was thrown, save a documentation parsing error
    without a comment, exactly one rendering is written on the diagnostic
    stream, the output flag is set and the value is [false]. *)
Lemma handleFault_renders (e : exn) (s : CLI) :
  ~ without_comment e ->
  handleFault env e s =
  (Ret false, set_out (out s ++ [(Cerr, rendering env e)]) (set_hasOutput true s)).
Proof.
  unfold without_comment, handleFault, rendering, category_of, type, comment_text.
  destruct e as [d c n w i]. simpl. intro Hc.
  destruct d as [| | | t | | |]; try reflexivity.
  destruct t; try reflexivity.
  destruct c as [c |]; [reflexivity |].
  exfalso. apply Hc. split; reflexivity.
Qed.

(** The handler of a documentation parsing error without a comment
    dereferences the null pointer. *)
Lemma handleFault_undefined (e : exn) (s : CLI) :
  without_comment e -> handleFault env e s = (Undefined, s).
Proof.
  unfold without_comment, handleFault, type.
  destruct e as [d c n w i]. simpl. intros [Hd Hc]. subst d c. reflexivity.
Qed.

Lemma without_comment_dec (e : exn) : without_comment e \/ ~ without_comment e.
Proof.
  unfold without_comment. destruct e as [d c n w i]. simpl.
  destruct c as [c |]; [right; intros [_ H]; discriminate |].
  destruct d as [| | | t | | |]; try (right; intros [H _]; discriminate).
  destruct t; try (right; intros [H _]; discriminate).
  left. split; reflexivity.
Qed.

Lemma handleFault_cases (e : exn) (s : CLI) :
  handleFault env e s =
    (Ret false, set_out (out s ++ [(Cerr, rendering env e)]) (set_hasOutput true s)) \/
  handleFault env e s = (Undefined, s).
Proof.
  destruct (without_comment_dec e) as [H | H].
  - right. apply handleFault_undefined. exact H.
  - left. apply handleFault_renders. exact H.
Qed.

End Safety.

(** X17. Once the input is loaded, [processInput] returns a value unless the
    body of the [try] throws a documentation parsing error without a
    comment.  When the body throws anything else, in whatever step,
    [processInput] returns [false] after one handler has written the one
    rendering of the fault's category on the diagnostic stream, with no
    further call on the engine. *)
Theorem processInput_classifies_faults (env : Env) (s s1 : CLI) :
  readInputFilesAndConfigureRemappings env s = (Ret true, s1) ->
  ((forall e, fst (configureAndCompile env (set_compiler true s1)) = Throw e ->
              ~ without_comment e) ->
   exists b s', processInput env s = (Ret b, s')) /\
  (forall e s2,
     configureAndCompile env (set_compiler true s1) = (Throw e, s2) ->
     ~ without_comment e ->
     exists s3,
       processInput env s = (Ret false, s3) /\
       out s3 = out s2 ++ [(Cerr, rendering env e)] /\
       g_hasOutput s3 = true /\
       engine_log s3 = engine_log s2 /\
       m_sourceCodes s3 = m_sourceCodes s2).
Proof.
  intro Hload. unfold processInput, bind. rewrite Hload. simpl.
  unfold try_catch, bind.
  destruct (Safe_configureAndCompile env (set_compiler true s1) eq_refl) as [_ Hsafe].
  split.
  - intro Hcomment.
    destruct (configureAndCompile env (set_compiler true s1)) as [[b | e | c |] s2];
      simpl in Hsafe; try contradiction.
    + destruct b; simpl; eauto.
    + rewrite handleFault_renders by (apply Hcomment; reflexivity). eauto.
  - intros e s2 Hthrow Hcomment. rewrite Hthrow.
    rewrite handleFault_renders by exact Hcomment.
    eexists. split; [reflexivity |]. simpl. auto.
Qed.

Lemma processInput_classifies_faults_witness :
  exists s3,
    processInput failing_engine one_file = (Ret false, s3) /\
    out s3 = [(Cerr, rendering failing_engine internal_error)] /\
    g_hasOutput s3 = true /\
    engine_log s3 =
      [SetRemappings []; SetSources [("a.sol", "contract C {}")];
       GenerateCode; GenerateAbi; WithOptimizations]%string /\
    m_sourceCodes s3 = [("a.sol", "contract C {}")]%string.
Proof.
  pose (s1 := snd (readInputFilesAndConfigureRemappings failing_engine one_file)).
  pose (s2 := snd (configureAndCompile failing_engine (set_compiler true s1))).
  assert (H1 : readInputFilesAndConfigureRemappings failing_engine one_file = (Ret true, s1))
    by (vm_compute; reflexivity).
  assert (H2 : configureAndCompile failing_engine (set_compiler true s1) =
               (Throw internal_error, s2))
    by (vm_compute; reflexivity).
  assert (H3 : ~ without_comment internal_error)
    by (intros [H _]; vm_compute in H; discriminate).
  destruct (proj2 (@processInput_classifies_faults failing_engine one_file s1 H1) _ _ H2 H3)
    as (s3 & E & Ho & Hf & Hl & Hs).
  exists s3. split; [exact E |].
  rewrite Ho, Hl, Hs. split; [| split; [exact Hf |]]; vm_compute; auto.
Defined.

(** C3. The fault that is not classified: once the input is loaded, a fault
    thrown by the body of the [try] leaves [processInput] without a value
    exactly when it is a documentation parsing error that carries no
    comment.  Its handler (line 486) dereferences the null pointer that
    [boost::get_error_info] returns, where the handler of
    [std::exception] (line 503) tests [what()] first: [false] is not
    returned and the behaviour of the program is undefined. *)
Theorem docstring_error_without_comment (env : Env) (s s1 s2 : CLI) (e : exn) :
  readInputFilesAndConfigureRemappings env s = (Ret true, s1) ->
  configureAndCompile env (set_compiler true s1) = (Throw e, s2) ->
  (fst (processInput env s) = Undefined <-> without_comment e) /\
  (fst (processInput env s) = Ret false <-> ~ without_comment e).
Proof.
  intros Hload Hthrow.
  assert (E : processInput env s = handleFault env e s2).
  { unfold processInput, bind. rewrite Hload. simpl.
    unfold try_catch, bind. rewrite Hthrow. reflexivity. }
  rewrite E.
  destruct (without_comment_dec e) as [H | H].
  - rewrite (handleFault_undefined env s2 H). cbn [fst].
    split; split; try (intro; exact H); try reflexivity; try discriminate.
    intro H'. contradiction.
  - rewrite (handleFault_renders env s2 H). cbn [fst].
    split; split; try (intro; exact H); try reflexivity; try discriminate.
    intro H'. contradiction.
Qed.

Lemma docstring_error_without_comment_witness :
  fst (processInput docstring_engine one_file) = Undefined.
Proof.
  pose (s1 := snd (readInputFilesAndConfigureRemappings docstring_engine one_file)).
  pose (s2 := snd (configureAndCompile docstring_engine (set_compiler true s1))).
  assert (H1 : readInputFilesAndConfigureRemappings docstring_engine one_file =
               (Ret true, s1))
    by (vm_compute; reflexivity).
  assert (H2 : configureAndCompile docstring_engine (set_compiler true s1) =
               (Throw docstring_error, s2))
    by (vm_compute; reflexivity).
  assert (H3 : without_comment docstring_error) by (split; reflexivity).
  destruct (@docstring_error_without_comment docstring_engine one_file s1 s2
              docstring_error H1 H2) as [[_ Hu] _].
  exact (Hu H3).
Defined.

(** ** The allowed directories *)

Lemma keeps_preorder X (f : CLI -> X) : preorder (keeps f).
Proof.
  split; unfold keeps.
  - reflexivity.
  - intros s1 s2 s3 H1 H2. congruence.
Qed.

Section AllowedDirectories.

Variable env : Env.

Let HR := keeps_preorder m_allowedDirectories.

Ltac dirs := inv_auto HR ltac:(reflexivity).

Lemma dirs_fileReader kind path : Inv (keeps m_allowedDirectories) (fileReader env kind path).
Proof. unfold fileReader. dirs. Qed.

Lemma dirs_call c : Inv (keeps m_allowedDirectories) (call env c).
Proof. unfold call. dirs. Qed.

Lemma dirs_run_script sc : Inv (keeps m_allowedDirectories) (run_script env sc).
Proof.
  induction sc as [a b errs | e | kind path k IH]; simpl.
  - apply (Inv_ret HR).
  - apply (Inv_throw HR).
  - apply (Inv_bind HR); [apply dirs_fileReader | exact IH].
Qed.

Lemma dirs_configureAndCompile :
  Inv (keeps m_allowedDirectories) (configureAndCompile env).
Proof.
  unfold configureAndCompile, configure, invoke, compile, reportError.
  repeat (first [apply dirs_call | apply dirs_run_script | inv_step HR ltac:(reflexivity)]).
Qed.

Lemma dirs_handleFault e : Inv (keeps m_allowedDirectories) (handleFault env e).
Proof. intro s. destruct (handleFault_cases env e s) as [-> | ->]; reflexivity. Qed.

Lemma dirs_checkSourcesGiven : Inv (keeps m_allowedDirectories) checkSourcesGiven.
Proof. unfold checkSourcesGiven. dirs. Qed.

Lemma dirs_parseArguments argv : Inv (keeps m_allowedDirectories) (parseArguments env argv).
Proof.
  unfold parseArguments, parseCommandLine, peephole, version, license. dirs.
Qed.

Lemma dirs_handleAst a : Inv (keeps m_allowedDirectories) (handleAst env a).
Proof. unfold handleAst, printTree. dirs. Qed.

Lemma dirs_actOnInput : Inv (keeps m_allowedDirectories) (actOnInput env).
Proof.
  unfold actOnInput, outputCompilationResults, contractOutput, handleNatspec.
  repeat (first [apply dirs_handleAst | inv_step HR ltac:(reflexivity)]).
Qed.

(** What loading the token [t] appends. *)
Lemma dirs_readToken (t : string) (s : CLI) :
  exists extra,
    m_allowedDirectories (snd (readToken env t s)) = m_allowedDirectories s ++ extra /\
    (extra = [] \/ directory_origin env t extra).
Proof.
  unfold readToken, directory_origin.
  destruct (after_first "="%char t) as [rest |] eqn:Heq.
  - destruct (parseRemapping env t) as [rm |] eqn:Hp.
    + exists [remove_filename env rest]. split.
      * unfold bind, modify, allowDirectoryOf. simpl.
        rewrite (dirs_checkSourcesGiven _). reflexivity.
      * right. right. exists rest, rm.
        split; [apply after_first_some; exact Heq | auto].
    + exists []. simpl. rewrite app_nil_r. auto.
  - unfold bind, lift.
    destruct (fs_exists env t) as [e | [|]] eqn:Hex; simpl;
      try (exists []; rewrite app_nil_r; auto; fail).
    destruct (fs_is_regular_file env t) as [e | [|]] eqn:Hreg; simpl;
      try (exists []; rewrite app_nil_r; auto; fail).
    destruct (fs_canonical env t) as [e | c] eqn:Hcan; simpl;
      try (exists []; rewrite app_nil_r; auto; fail).
    exists [remove_filename env c]. split.
    + unfold allowDirectoryOf, modify.
      rewrite (dirs_checkSourcesGiven _). reflexivity.
    + right. left. exists c.
      split; [apply after_first_none; exact Heq | auto].
Qed.

(** The entry is recorded whenever its origin is there. *)
Lemma dirs_recorded (t : string) (s : CLI) (extra : list string) :
  directory_origin env t extra ->
  m_allowedDirectories (snd (readToken env t s)) = m_allowedDirectories s ++ extra.
Proof.
  intros [(c & Hn & Hex & Hreg & Hcan & He) | (rest & rm & Hf & Hp & He)];
    subst extra; unfold readToken.
  - apply after_first_none in Hn. rewrite Hn. unfold bind, lift.
    rewrite Hex. simpl. rewrite Hreg. simpl. rewrite Hcan. simpl.
    unfold allowDirectoryOf, modify.
    rewrite (dirs_checkSourcesGiven _). reflexivity.
  - apply after_first_some in Hf. rewrite Hf, Hp.
    unfold bind, modify, allowDirectoryOf. simpl.
    rewrite (dirs_checkSourcesGiven _). reflexivity.
Qed.

End AllowedDirectories.

Lemma dirs_readInput (env : Env) (s : CLI) :
  exists extra,
    m_allowedDirectories (snd (readInputFilesAndConfigureRemappings env s)) =
      m_allowedDirectories s ++ extra /\
    (extra = [] \/
     exists t,
       vm_find g_argInputFile (m_args s) = Some (Some t) /\
       directory_origin env t extra).
Proof.
  unfold readInputFilesAndConfigureRemappings, bind at 1, get.
  destruct (given s g_argInputFile).
  - unfold bind, as_string, bind, get.
    destruct (vm_find g_argInputFile (m_args s)) as [[t |] |] eqn:Hfind; simpl;
      try (exists []; rewrite app_nil_r; auto; fail).
    destruct (dirs_readToken env t s) as (extra & H1 & H2).
    exists extra. split; [exact H1 |].
    destruct H2 as [H2 | H2]; [left; exact H2 | right; eauto].
  - exists []. rewrite app_nil_r. split; [| auto].
    apply (dirs_checkSourcesGiven s).
Qed.

Lemma dirs_processInput (env : Env) (s : CLI) :
  m_allowedDirectories (snd (processInput env s)) =
  m_allowedDirectories (snd (readInputFilesAndConfigureRemappings env s)).
Proof.
  unfold processInput, bind at 1.
  destruct (readInputFilesAndConfigureRemappings env s) as [[loaded | e | c |] s1];
    simpl; try reflexivity.
  destruct loaded; simpl; [| reflexivity].
  pose proof (keeps_preorder m_allowedDirectories) as HR.
  assert (H : Inv (keeps m_allowedDirectories)
                (try_catch
                   (bind (configureAndCompile env)
                      (fun successful => if negb successful then ret false else ret true))
                   (handleFault env))).
  { inv_auto HR ltac:(reflexivity);
      first [apply dirs_configureAndCompile | apply dirs_handleFault]. }
  unfold bind at 1, modify. simpl.
  rewrite (H (set_compiler true s1)). reflexivity.
Qed.

(** C8, as the code has it.  The allowed directories change in one place
    only, the loading of the input token by [processInput], which removes
    no entry and appends exactly one in two cases and none otherwise: when
    the token names an existing regular file, which it loads, the parent of
    the file's canonical path; when the token is a remapping the engine's
    parser accepts, the parent of the remapping's target, from which
    nothing is loaded.  [parseArguments], the read callback, the
    configuration and invocation of the engine and [actOnInput] leave the
    allowed directories as they are. *)
Theorem allowed_directories_origin (env : Env) (s : CLI) :
  (forall argv,
     m_allowedDirectories (snd (parseArguments env argv s)) = m_allowedDirectories s) /\
  (forall kind path,
     m_allowedDirectories (snd (fileReader env kind path s)) = m_allowedDirectories s) /\
  m_allowedDirectories (snd (configureAndCompile env s)) = m_allowedDirectories s /\
  m_allowedDirectories (snd (actOnInput env s)) = m_allowedDirectories s /\
  (forall t extra,
     vm_find g_argInputFile (m_args s) = Some (Some t) ->
     directory_origin env t extra ->
     m_allowedDirectories (snd (processInput env s)) = m_allowedDirectories s ++ extra) /\
  (forall t c,
     vm_find g_argInputFile (m_args s) = Some (Some t) ->
     ~ contains "="%char t ->
     fs_exists env t = inr true ->
     fs_is_regular_file env t = inr true ->
     fs_canonical env t = inr c ->
     readInputFilesAndConfigureRemappings env s =
       (Ret true,
        set_allowedDirectories (m_allowedDirectories s ++ [remove_filename env c])
          (set_sourceCodes
             (map_set (generic_string env t) (readFileAsString env t) (m_sourceCodes s))
             s))) /\
  exists extra,
    m_allowedDirectories (snd (processInput env s)) = m_allowedDirectories s ++ extra /\
    (extra = [] \/
     exists t,
       vm_find g_argInputFile (m_args s) = Some (Some t) /\
       directory_origin env t extra).
Proof.
  split; [| split; [| split; [| split; [| split; [| split]]]]].
  - intro argv. apply (dirs_parseArguments env argv s).
  - intros kind path. apply (dirs_fileReader env kind path s).
  - apply (dirs_configureAndCompile env s).
  - apply (dirs_actOnInput env s).
  - intros t extra Hfind Horigin.
    rewrite dirs_processInput, (readInput_token env _ Hfind).
    apply dirs_recorded. exact Horigin.
  - intros t c Hfind Hn Hex Hreg Hcan.
    rewrite (readInput_token env _ Hfind).
    apply after_first_none in Hn.
    unfold readToken. rewrite Hn.
    unfold bind. rewrite Hex. simpl. rewrite Hreg. simpl. rewrite Hcan. simpl.
    unfold checkSourcesGiven, bind, get. simpl.
    destruct (m_sourceCodes s) as [| [k' v'] m]; simpl; [reflexivity |].
    destruct (String.eqb k' (generic_string env t)); reflexivity.
  - rewrite dirs_processInput. apply dirs_readInput.
Qed.

Lemma allowed_directories_origin_witness :
  m_allowedDirectories (snd (processInput Sample.quiet_engine one_file)) = ["/work/"%string] /\
  m_allowedDirectories (snd (processInput Sample.quiet_engine one_remapping)) =
    ["/vendor/"%string].
Proof.
  assert (H1 : directory_origin Sample.quiet_engine "a.sol" ["/work/"%string]).
  { left. exists "/work/a.sol"%string. split; [| vm_compute; repeat split; reflexivity].
    apply after_first_none. reflexivity. }
  assert (H2 : directory_origin Sample.quiet_engine "lib=/vendor/x.sol" ["/vendor/"%string]).
  { right. exists "/vendor/x.sol"%string, (mkRemapping "" "lib" "/vendor/x.sol").
    split; [| vm_compute; repeat split; reflexivity].
    apply after_first_some. reflexivity. }
  destruct (allowed_directories_origin Sample.quiet_engine one_file)
    as (_ & _ & _ & _ & Hfile & _).
  destruct (allowed_directories_origin Sample.quiet_engine one_remapping)
    as (_ & _ & _ & _ & Hmap & _).
  split.
  - exact (Hfile "a.sol"%string _ eq_refl H1).
  - exact (Hmap "lib=/vendor/x.sol"%string _ eq_refl H2).
Defined.

(** C8 as stated fails: a command line whose only positional argument is a
    remapping leaves an allowed directory, the parent of the remapping's
    target, although no input file was loaded. *)
Lemma allowed_directory_without_loaded_file :
  let s' := snd (processInput Sample.quiet_engine one_remapping) in
  m_allowedDirectories s' = ["/vendor/"%string] /\
  m_sourceCodes s' = [] /\
  ~ every_directory_from_a_loaded_file Sample.quiet_engine s'.
Proof.
  assert (Hd : m_allowedDirectories (snd (processInput Sample.quiet_engine one_remapping)) =
               ["/vendor/"%string]) by (vm_compute; reflexivity).
  assert (Hs : m_sourceCodes (snd (processInput Sample.quiet_engine one_remapping)) = [])
    by (vm_compute; reflexivity).
  cbv zeta. split; [exact Hd | split; [exact Hs |]].
  intro H. destruct (H "/vendor/"%string) as (k & c & Hin & _).
  - rewrite Hd. left. reflexivity.
  - rewrite Hs in Hin. exact Hin.
Qed.

(** ** The output stage *)

Lemma wrote_app (l1 l2 : list (stream * string)) (s : CLI) :
  wrote l2 (wrote l1 s) = wrote (l1 ++ l2) s.
Proof.
  destruct l1 as [| x l1]; [reflexivity |].
  destruct l2 as [| y l2].
  - rewrite app_nil_r. reflexivity.
  - unfold wrote. simpl. unfold set_out, set_hasOutput. simpl.
    rewrite <- app_assoc. reflexivity.
Qed.

Lemma wrote_args l s : m_args (wrote l s) = m_args s.
Proof. destruct l; reflexivity. Qed.

Lemma wrote_sources l s : m_sourceCodes (wrote l s) = m_sourceCodes s.
Proof. destruct l; reflexivity. Qed.

Lemma wrote_compiler l s : m_compiler (wrote l s) = m_compiler s.
Proof. destruct l; reflexivity. Qed.

Lemma wrote_out l s : out (wrote l s) = out s ++ l.
Proof. destruct l; simpl; [rewrite app_nil_r |]; reflexivity. Qed.

Lemma wrote_flag l s : g_hasOutput (wrote l s) = g_hasOutput s || negb (is_nil l).
Proof. destruct l; simpl; [rewrite orb_false_r | rewrite orb_true_r]; reflexivity. Qed.

Lemma sout_wrote t s : sout t s = (Ret tt, wrote [(Cout, t)] s).
Proof. reflexivity. Qed.

Lemma serr_wrote t s : serr t s = (Ret tt, wrote [(Cerr, t)] s).
Proof. reflexivity. Qed.

Lemma deref_constructed s : m_compiler s = true -> deref s = (Ret tt, s).
Proof. intro H. unfold deref. rewrite H. reflexivity. Qed.

Section Output.

Variable env : Env.

Lemma derefs_constructed A (l : list A) (s : CLI) :
  m_compiler s = true -> for_each l (fun _ => deref) s = (Ret tt, s).
Proof.
  intro H. induction l as [| a l IH]; simpl; [reflexivity |].
  unfold bind. rewrite (deref_constructed _ H). exact IH.
Qed.

Lemma trees_loop (legacy : bool) (l : SourceMap) (s : CLI) :
  m_compiler s = true ->
  for_each l (printTree env legacy) s =
  (Ret tt,
   wrote (flat_map (fun sourceCode : string * string =>
                      [(Cout, banner (fst sourceCode));
                       (Cout, ASTJsonConverter_print env legacy (fst sourceCode))]) l) s).
Proof.
  revert s. induction l as [| a l IH]; intros s H; [reflexivity |].
  cbn [for_each flat_map]. unfold bind at 1. unfold printTree at 1.
  unfold bind at 1. rewrite sout_wrote.
  unfold bind at 1. rewrite deref_constructed by (rewrite wrote_compiler; exact H).
  rewrite sout_wrote, wrote_app.
  rewrite IH by (rewrite wrote_compiler; exact H).
  rewrite wrote_app. reflexivity.
Qed.

Lemma handleAst_wrote (argStr : string) (s : CLI) :
  m_compiler s = true ->
  argStr = g_argAstJson \/ argStr = g_argAstCompactJson ->
  handleAst env argStr s =
  (Ret tt, wrote (ast_block env (m_args s) (m_sourceCodes s) argStr) s).
Proof.
  intros H Harg. unfold handleAst, ast_block, ast_title.
  assert (Htitle :
    (if String.eqb argStr g_argAstJson then ret "JSON AST:"%string
     else if String.eqb argStr g_argAstCompactJson
          then ret "JSON AST (compact format):"%string
          else throw (InternalCompilerError env "Illegal argStr for AST")) =
    ret (if String.eqb argStr g_argAstJson then "JSON AST:"%string
         else "JSON AST (compact format):"%string)).
  { destruct Harg; subst; reflexivity. }
  rewrite Htitle. unfold bind at 1, ret at 1. unfold bind at 1, get.
  change (given s argStr) with (requested (m_args s) argStr).
  change (given s g_argAstCompactJson) with (requested (m_args s) g_argAstCompactJson).
  destruct (requested (m_args s) argStr); [| reflexivity].
  unfold bind at 1. rewrite (derefs_constructed _ _ H).
  unfold bind at 1. rewrite sout_wrote.
  rewrite trees_loop by (rewrite wrote_compiler; exact H).
  rewrite wrote_app. reflexivity.
Qed.

Lemma handleNatspec_wrote (dev : bool) (contract : string) (s : CLI) :
  m_compiler s = true ->
  handleNatspec env dev contract s =
  (Ret tt, wrote (natspec_block env (m_args s) dev contract) s).
Proof.
  intro H. unfold handleNatspec, natspec_block, bind at 1, get.
  change (given s (if dev then g_argNatspecDev else g_argNatspecUser))
    with (requested (m_args s) (if dev then g_argNatspecDev else g_argNatspecUser)).
  destruct (requested (m_args s) (if dev then g_argNatspecDev else g_argNatspecUser));
    [| reflexivity].
  unfold bind at 1. rewrite (deref_constructed _ H).
  unfold bind. rewrite sout_wrote, sout_wrote, wrote_app. reflexivity.
Qed.

Lemma contractOutput_wrote (contract : string) (s : CLI) :
  m_compiler s = true ->
  contractOutput env contract s =
  (Ret tt, wrote (contract_block env (m_args s) contract) s).
Proof.
  intro H. unfold contractOutput, contract_block, bind at 1, get.
  assert (Hbanner :
    when (needsHumanTargetedStdout (m_args s))
      (sout (endl ++ "======= " ++ contract ++ " =======" ++ endl)) s =
    (Ret tt,
     wrote (if needsHumanTargetedStdout (m_args s) then [(Cout, banner contract)] else [])
       s)).
  { destruct (needsHumanTargetedStdout (m_args s)); reflexivity. }
  unfold bind at 1. rewrite Hbanner.
  unfold bind at 1. rewrite handleNatspec_wrote by (rewrite wrote_compiler; exact H).
  rewrite handleNatspec_wrote by (rewrite !wrote_compiler; exact H).
  rewrite !wrote_args, !wrote_app. reflexivity.
Qed.

Lemma contracts_loop (args : variables_map) (l : list string) (s : CLI) :
  m_compiler s = true ->
  m_args s = args ->
  for_each l (contractOutput env) s =
  (Ret tt, wrote (flat_map (contract_block env args) l) s).
Proof.
  revert s. induction l as [| c l IH]; intros s H Hargs; [reflexivity |].
  cbn [for_each flat_map]. unfold bind at 1.
  rewrite contractOutput_wrote by exact H. rewrite Hargs.
  rewrite IH by (rewrite ?wrote_compiler, ?wrote_args; assumption).
  rewrite wrote_app. reflexivity.
Qed.

(** The whole of [outputCompilationResults], on a constructed engine. *)
Lemma outputCompilationResults_wrote (s : CLI) :
  m_compiler s = true ->
  outputCompilationResults env s = (Ret tt, wrote (results_output env s) s).
Proof.
  intro H. unfold outputCompilationResults, results_output, syntax_trees.
  unfold bind at 1. rewrite handleAst_wrote by auto.
  unfold bind at 1. rewrite handleAst_wrote by (rewrite ?wrote_compiler; auto).
  rewrite wrote_args, wrote_sources, wrote_app.
  unfold bind at 1. rewrite deref_constructed by (rewrite wrote_compiler; exact H).
  destruct (compilationSuccessful env); simpl.
  - unfold bind at 1. rewrite deref_constructed by (rewrite wrote_compiler; exact H).
    unfold bind at 1.
    rewrite (@contracts_loop (m_args s))
      by (rewrite ?wrote_compiler, ?wrote_args; auto).
    rewrite wrote_app. unfold bind, get. rewrite wrote_flag.
    unfold contracts_output.
    match goal with |- context [g_hasOutput s || negb (is_nil ?b)] =>
      destruct (g_hasOutput s || negb (is_nil b)) end; simpl.
    + rewrite app_nil_r. reflexivity.
    + rewrite serr_wrote, wrote_app. reflexivity.
  - rewrite serr_wrote, wrote_app. reflexivity.
Qed.

End Output.

(** ** The syntax trees *)

(** C7, as the code has it.  On a constructed engine whose accessors
    return, [outputCompilationResults] returns, and what it writes is this
    and nothing else.  First, for each of the two syntax-tree flags that
    was given, one listing: the title and then, for every unit of the
    source mapping in the mapping's order, the banner of the unit and its
    tree.  A unit is therefore listed once when one flag is given and twice
    when both are.  This happens whether or not the compilation succeeded.
    When it did not, the halt notice follows the listings and ends the
    output.  When it did, the blocks of the contracts follow and then, if
    the output flag is still unset, the advisory. *)
Theorem syntax_tree_stage (env : Env) (s : CLI) :
  m_compiler s = true ->
  let trees :=
    ast_block env (m_args s) (m_sourceCodes s) g_argAstJson ++
    ast_block env (m_args s) (m_sourceCodes s) g_argAstCompactJson in
  let contracts := contracts_output env (m_args s) in
  fst (outputCompilationResults env s) = Ret tt /\
  out (snd (outputCompilationResults env s)) =
    out s ++ trees ++
    (if compilationSuccessful env then
       contracts ++
       (if g_hasOutput s || negb (is_nil (trees ++ contracts)) then []
        else [(Cerr, advisory)])
     else [(Cerr, halt_notice)]).
Proof.
  intros H trees contracts. subst trees contracts.
  rewrite outputCompilationResults_wrote by exact H. cbn [fst snd].
  rewrite wrote_out. unfold results_output, syntax_trees.
  split; [reflexivity |].
  destruct (compilationSuccessful env); cbv zeta; rewrite <- ?app_assoc; reflexivity.
Qed.

Lemma syntax_tree_stage_witness :
  m_compiler compact_tree_run = true /\
  fst (outputCompilationResults Sample.quiet_engine compact_tree_run) = Ret tt /\
  out (snd (outputCompilationResults Sample.quiet_engine compact_tree_run)) =
    [(Cout, ("JSON AST (compact format):" ++ endl ++ endl)%string);
     (Cout, banner "a.sol");
     (Cout, ASTJsonConverter_print Sample.quiet_engine false "a.sol")].
Proof.
  assert (H : m_compiler compact_tree_run = true) by (vm_compute; reflexivity).
  split; [exact H |].
  pose proof (@syntax_tree_stage Sample.quiet_engine compact_tree_run H) as P.
  cbv zeta in P. destruct P as [P1 P2].
  split; [exact P1 |].
  rewrite P2. vm_compute. reflexivity.
Defined.

(** C7 as stated fails: with both syntax-tree flags on the command line the
    banner of the one source unit is written twice. *)
Lemma syntax_tree_listed_twice :
  let argv := ["solc"; "--ast-json"; "--ast-compact-json"; "a.sol"]%string in
  fst (parseArguments Sample.quiet_engine argv fresh) = Ret true /\
  map fst (m_sourceCodes (after_processInput Sample.quiet_engine argv)) = ["a.sol"%string] /\
  occurrences Cout (banner "a.sol") (output_of_run Sample.quiet_engine argv) = 2.
Proof. vm_compute. repeat split; reflexivity. Qed.

(** ** The banner of a contract *)

Lemma needsHumanTargetedStdout_any (args : variables_map) :
  needsHumanTargetedStdout args = true <->
  requested args g_argAstJson = true \/
  requested args g_argNatspecUser = true \/
  requested args g_argNatspecDev = true.
Proof.
  unfold needsHumanTargetedStdout, requested. simpl.
  rewrite orb_false_r, !orb_true_iff. tauto.
Qed.

(** C2, as the code has it.  After a successful compilation, on a
    constructed engine whose accessors return, [outputCompilationResults]
    writes this and nothing else: the syntax trees; then one block for each
    contract the engine names, in the engine's order, made of the banner of
    the contract when at least one of the options [ast-json], [userdoc] and
    [devdoc] was given, and of the documentation that was asked for; then
    the advisory if the output flag is still unset.  One such option is
    enough for the banner; with none of them nothing at all is written for
    a contract. *)
Theorem contract_banner (env : Env) (s : CLI) :
  m_compiler s = true ->
  compilationSuccessful env = true ->
  let args := m_args s in
  let trees := syntax_trees env args (m_sourceCodes s) in
  let blocks :=
    flat_map
      (fun contract =>
         (if needsHumanTargetedStdout args then [(Cout, banner contract)] else []) ++
         natspec_block env args true contract ++
         natspec_block env args false contract)
      (contractNames env) in
  (fst (outputCompilationResults env s) = Ret tt /\
   out (snd (outputCompilationResults env s)) =
     out s ++ trees ++ blocks ++
     (if g_hasOutput s || negb (is_nil (trees ++ blocks)) then []
      else [(Cerr, advisory)])) /\
  (needsHumanTargetedStdout args = true <->
     requested args g_argAstJson = true \/
     requested args g_argNatspecUser = true \/
     requested args g_argNatspecDev = true) /\
  (needsHumanTargetedStdout args = false ->
   out (snd (outputCompilationResults env s)) =
     out s ++ trees ++
     (if g_hasOutput s || negb (is_nil trees) then [] else [(Cerr, advisory)])).
Proof.
  intros H Hok args trees blocks.
  assert (Hout : outputCompilationResults env s =
                 (Ret tt,
                  wrote ((trees ++ blocks) ++
                         (if g_hasOutput s || negb (is_nil (trees ++ blocks)) then []
                          else [(Cerr, advisory)])) s)).
  { rewrite outputCompilationResults_wrote by exact H.
    unfold results_output. rewrite Hok. reflexivity. }
  split; [| split].
  - rewrite Hout. cbn [fst snd]. rewrite wrote_out, <- !app_assoc.
    split; reflexivity.
  - apply needsHumanTargetedStdout_any.
  - intro Hnone.
    assert (Hblocks : blocks = []).
    { subst blocks. clear Hout.
      destruct (requested args g_argNatspecUser) eqn:Huser.
      { assert (needsHumanTargetedStdout args = true)
          by (apply needsHumanTargetedStdout_any; auto).
        congruence. }
      destruct (requested args g_argNatspecDev) eqn:Hdev.
      { assert (needsHumanTargetedStdout args = true)
          by (apply needsHumanTargetedStdout_any; auto).
        congruence. }
      unfold natspec_block. rewrite Hnone, Huser, Hdev. simpl.
      induction (contractNames env) as [| c l IH]; [reflexivity | exact IH]. }
    rewrite Hout. cbn [fst snd]. rewrite wrote_out, Hblocks, !app_nil_r.
    reflexivity.
Qed.

Lemma contract_banner_witness :
  m_compiler userdoc_run = true /\
  compilationSuccessful Sample.quiet_engine = true /\
  fst (outputCompilationResults Sample.quiet_engine userdoc_run) = Ret tt /\
  out (snd (outputCompilationResults Sample.quiet_engine userdoc_run)) =
    [(Cout, banner "C");
     (Cout, ("User Documentation" ++ endl)%string);
     (Cout, ("{userdoc of C}" ++ endl)%string)].
Proof.
  assert (H : m_compiler userdoc_run = true) by (vm_compute; reflexivity).
  assert (Hok : compilationSuccessful Sample.quiet_engine = true) by reflexivity.
  split; [exact H |]. split; [exact Hok |].
  pose proof (@contract_banner Sample.quiet_engine userdoc_run H Hok) as P.
  cbv zeta in P. destruct P as [[P1 P2] _].
  split; [exact P1 |].
  rewrite P2. vm_compute. reflexivity.
Defined.

(** C2 as stated fails: with [devdoc] as the only output asked for, the
    banner of the contract is written. *)
Lemma banner_with_one_kind :
  let argv := ["solc"; "--devdoc"; "a.sol"]%string in
  let args := m_args (after_processInput Sample.quiet_engine argv) in
  count args g_argNatspecDev = 1 /\
  count args g_argNatspecUser = 0 /\
  count args g_argAstJson = 0 /\
  count args g_argAstCompactJson = 0 /\
  output_of_run Sample.quiet_engine argv =
    [(Cout, banner "C");
     (Cout, ("Developer Documentation" ++ endl)%string);
     (Cout, ("{devdoc of C}" ++ endl)%string)].
Proof. vm_compute. repeat split; reflexivity. Qed.

(** ** One input token *)

Lemma positional_token (t : string) (rest : list string) :
  String.prefix "-" t = false ->
  cmdline_run None false (t :: rest) =
  add_option (g_argInputFile, Some t) (cmdline_run None false rest).
Proof.
  intro H. destruct t as [| a t']; [reflexivity |].
  destruct a as [[] [] [] [] [] [] [] []]; try reflexivity.
  destruct t'; vm_compute in H; discriminate.
Qed.

Lemma two_positional_tokens (env : Env) (prog t1 t2 : string) (s : CLI) :
  m_args s = [] ->
  String.prefix "-" t1 = false ->
  String.prefix "-" t2 = false ->
  parseArguments env [prog; t1; t2] s =
  (Ret false,
   set_out (out s ++ [(Cerr, (po_what env (multiple_occurrences g_argInputFile) ++ endl)%string)])
     (set_hasOutput true
        (set_args [(g_argInputFile, Some t1)] (set_hasOutput false s)))).
Proof.
  intros Hargs H1 H2.
  unfold parseArguments, parseCommandLine, bind at 1, modify.
  unfold bind at 1. cbn [tl].
  rewrite !positional_token by assumption. cbn [cmdline_run add_option].
  unfold bind, get. cbn [m_args set_hasOutput]. rewrite Hargs. reflexivity.
Qed.

Lemma readToken_remapping (env : Env) (s : CLI) (t rest : string) (rm : Remapping) :
  after_first "="%char t = Some rest ->
  parseRemapping env t = Some rm ->
  m_remappings (snd (readToken env t s)) = m_remappings s ++ [rm] /\
  m_sourceCodes (snd (readToken env t s)) = m_sourceCodes s.
Proof.
  intros Heq Hp. unfold readToken. rewrite Heq, Hp.
  unfold allowDirectoryOf, bind, modify. simpl.
  match goal with |- context [checkSourcesGiven ?x] =>
    destruct (checkSourcesGiven_state x) as (H1 & H2 & _) end.
  rewrite H1, H2. auto.
Qed.

Lemma map_set_not_empty (k v : string) (m : SourceMap) :
  Nat.eqb (length (map_set k v m)) 0 = false.
Proof.
  destruct m as [| [k' v'] m]; simpl; [reflexivity |].
  destruct (String.eqb k' k); reflexivity.
Qed.

Lemma readToken_file (env : Env) (s : CLI) (t c : string) :
  after_first "="%char t = None ->
  fs_exists env t = inr true ->
  fs_is_regular_file env t = inr true ->
  fs_canonical env t = inr c ->
  readToken env t s =
  (Ret true,
   set_allowedDirectories (m_allowedDirectories s ++ [remove_filename env c])
     (set_sourceCodes
        (map_set (generic_string env t) (readFileAsString env t) (m_sourceCodes s)) s)).
Proof.
  intros Heq Hex Hreg Hcan. unfold readToken. rewrite Heq.
  unfold bind. rewrite Hex. simpl. rewrite Hreg. simpl. rewrite Hcan. simpl.
  unfold checkSourcesGiven, bind, get. simpl.
  rewrite map_set_not_empty. reflexivity.
Qed.

(** C9, as the code has it.  The positional arguments of a command line
    hold one input token.  Two positional tokens given to a new object are
    refused by the storing of the options: [input-file] holds one string,
    the second occurrence throws, and [parseArguments] writes the message
    of the library and returns [false] with nothing parsed as a remapping
    and nothing loaded.  A single token is a remapping or a file, never
    both: a remapping is recorded as the engine's parser gives it and no
    source is loaded; an existing regular file is loaded into the source
    mapping and no remapping is recorded. *)
Theorem single_input_token (env : Env) (s : CLI) :
  (forall prog t1 t2,
     m_args s = [] ->
     String.prefix "-" t1 = false ->
     String.prefix "-" t2 = false ->
     let r := parseArguments env [prog; t1; t2] s in
     fst r = Ret false /\
     out (snd r) =
       out s ++ [(Cerr, (po_what env (multiple_occurrences g_argInputFile) ++ endl)%string)] /\
     m_remappings (snd r) = m_remappings s /\
     m_sourceCodes (snd r) = m_sourceCodes s) /\
  (forall t rest rm,
     vm_find g_argInputFile (m_args s) = Some (Some t) ->
     after_first "="%char t = Some rest ->
     parseRemapping env t = Some rm ->
     let r := readInputFilesAndConfigureRemappings env s in
     m_remappings (snd r) = m_remappings s ++ [rm] /\
     m_sourceCodes (snd r) = m_sourceCodes s) /\
  (forall t c,
     vm_find g_argInputFile (m_args s) = Some (Some t) ->
     after_first "="%char t = None ->
     fs_exists env t = inr true ->
     fs_is_regular_file env t = inr true ->
     fs_canonical env t = inr c ->
     let r := readInputFilesAndConfigureRemappings env s in
     fst r = Ret true /\
     m_sourceCodes (snd r) =
       map_set (generic_string env t) (readFileAsString env t) (m_sourceCodes s) /\
     m_remappings (snd r) = m_remappings s).
Proof.
  split; [| split].
  - intros prog t1 t2 Hargs H1 H2 r. subst r.
    rewrite (@two_positional_tokens env prog t1 t2 s Hargs H1 H2). simpl. auto.
  - intros t rest rm Hfind Heq Hp r. subst r.
    rewrite (@readInput_token env s t Hfind).
    apply (@readToken_remapping env s t rest rm Heq Hp).
  - intros t c Hfind Heq Hex Hreg Hcan r. subst r.
    rewrite (@readInput_token env s t Hfind).
    rewrite (@readToken_file env s t c Heq Hex Hreg Hcan). simpl. auto.
Qed.

Lemma single_input_token_witness :
  m_args fresh = [] /\
  String.prefix "-" "ctxA:lib=./vendor" = false /\
  String.prefix "-" "a.sol" = false /\
  let r := parseArguments Sample.quiet_engine
             ["solc"; "ctxA:lib=./vendor"; "a.sol"]%string fresh in
  fst r = Ret false /\
  out (snd r) =
    out fresh ++
    [(Cerr, (po_what Sample.quiet_engine (multiple_occurrences g_argInputFile) ++ endl)%string)] /\
  m_remappings (snd r) = m_remappings fresh /\
  m_sourceCodes (snd r) = m_sourceCodes fresh.
Proof.
  assert (H1 : String.prefix "-" "ctxA:lib=./vendor" = false) by (vm_compute; reflexivity).
  assert (H2 : String.prefix "-" "a.sol" = false) by (vm_compute; reflexivity).
  split; [reflexivity |]. split; [exact H1 |]. split; [exact H2 |].
  exact (proj1 (single_input_token Sample.quiet_engine fresh)
           "solc"%string "ctxA:lib=./vendor"%string "a.sol"%string eq_refl H1 H2).
Defined.

(** C9 as stated fails: for the command line of the claim, a remapping and
    a file, [parseArguments] returns [false] with the message that
    [input-file] was given twice; no remapping is recorded, and if
    [processInput] ran all the same it would see the first token only and
    load no file. *)
Lemma remapping_and_file_rejected :
  let argv := ["solc"; "ctxA:lib=./vendor"; "a.sol"]%string in
  let r := parseArguments Sample.quiet_engine argv fresh in
  fst r = Ret false /\
  out (snd r) =
    [(Cerr, ("option '--input-file' cannot be specified more than once" ++ endl)%string)] /\
  m_remappings (snd r) = [] /\
  m_sourceCodes (snd r) = [] /\
  fst (processInput Sample.quiet_engine (snd r)) = Ret false /\
  m_sourceCodes (after_processInput Sample.quiet_engine argv) = [].
Proof. vm_compute. repeat split; reflexivity. Qed.

(** ** The output flag *)

Lemma tracks_preorder (X : Prop) : preorder (tracks X).
Proof.
  split.
  - intro s. exists []. rewrite app_nil_r. repeat split.
    + intros [H | H]; [exact H | contradiction].
    + auto.
  - intros s1 s2 s3 (n1 & E1 & F1 & B1) (n2 & E2 & F2 & B2).
    exists (n1 ++ n2). rewrite E2, E1, app_assoc. repeat split.
    + intros [H | H].
      * apply F2. left. apply F1. left. exact H.
      * destruct n1 as [| x n1].
        -- apply F2. right. exact H.
        -- apply F2. left. apply F1. right. discriminate.
    + intro H. destruct (B2 H) as [H2 | [H2 | H2]].
      * destruct (B1 H2) as [H1 | [H1 | H1]]; auto.
        right. left. intro E. apply app_eq_nil in E. tauto.
      * right. left. intro E. apply app_eq_nil in E. tauto.
      * auto.
Qed.

(** An assignment that touches neither the output nor the flag. *)
Lemma tracks_silent (X : Prop) (s s' : CLI) :
  out s' = out s -> g_hasOutput s' = g_hasOutput s -> tracks X s s'.
Proof.
  intros Ho Hf. exists []. rewrite app_nil_r, Hf. repeat split; auto.
  intros [H | H]; [exact H | contradiction].
Qed.

(** A write that sets the flag. *)
Lemma tracks_write (X : Prop) (s s' : CLI) (x : stream * string) :
  out s' = out s ++ [x] -> g_hasOutput s' = true -> tracks X s s'.
Proof.
  intros Ho Hf. exists [x]. repeat split; auto.
  intros _. right. left. discriminate.
Qed.

Ltac tracks_base :=
  first [ apply tracks_silent; reflexivity
        | eapply tracks_write; reflexivity ].

Section Flag.

Variable env : Env.
Variable X : Prop.

Let HR := tracks_preorder X.

Ltac flag := inv_auto HR ltac:(tracks_base).

Lemma flag_fileReader kind path : Inv (tracks X) (fileReader env kind path).
Proof. unfold fileReader. flag. Qed.

Lemma flag_call c : Inv (tracks X) (call env c).
Proof. unfold call. flag. Qed.

Lemma flag_run_script sc : Inv (tracks X) (run_script env sc).
Proof.
  induction sc as [a b errs | e | kind path k IH]; simpl.
  - apply (Inv_ret HR).
  - apply (Inv_throw HR).
  - apply (Inv_bind HR); [apply flag_fileReader | exact IH].
Qed.

Lemma flag_compile : Inv (tracks X) (compile env).
Proof.
  unfold compile.
  repeat (first [apply flag_run_script | inv_step HR ltac:(tracks_base)]).
Qed.

Lemma flag_configure : Inv (tracks X) (configure env).
Proof.
  unfold configure.
  repeat (first [apply flag_call | inv_step HR ltac:(tracks_base)]).
Qed.

Lemma flag_reportError error : Inv (tracks X) (reportError env error).
Proof.
  intro s. eapply tracks_write; reflexivity.
Qed.

Lemma flag_handleFault e : Inv (tracks X) (handleFault env e).
Proof.
  intro s. destruct (handleFault_cases env e s) as [-> | ->].
  - eapply tracks_write; reflexivity.
  - apply (pre_refl HR).
Qed.

Lemma flag_readInput : Inv (tracks X) (readInputFilesAndConfigureRemappings env).
Proof.
  unfold readInputFilesAndConfigureRemappings, readToken, allowDirectoryOf,
    checkSourcesGiven.
  flag.
Qed.

Lemma flag_parseArguments_body argv :
  Inv (tracks X)
    (parsed <- parseCommandLine env argv ;;
     if negb parsed then ret false
     else
       s <- get ;;
       let tvmAbi := given s g_argTvmABI in
       let tvmCode := given s g_argTvm in
       if tvmAbi && tvmCode then
         serr ("Option " ++ g_argTvmABI ++ " and " ++ g_argTvm ++
               " are mutually exclusive." ++ endl) ;;
         ret false
       else if given s g_argTvmPeephole then peephole argv
       else
         modify (set_coloredOutput (isatty_stderr env)) ;;
         if given s g_argHelp || (isatty_stdin env && Nat.eqb (length argv) 1) then
           sout (desc env) ;;
           ret false
         else if given s g_argVersion then
           version env ;;
           ret false
         else if given s g_strLicense then
           license env ;;
           ret false
         else ret true).
Proof.
  unfold parseCommandLine, peephole, version, license. cbv zeta. flag.
Qed.

Lemma flag_outputCompilationResults (s : CLI) :
  m_compiler s = true -> tracks X s (snd (outputCompilationResults env s)).
Proof.
  intro H. rewrite outputCompilationResults_wrote by exact H. simpl.
  exists (results_output env s). rewrite wrote_out, wrote_flag.
  split; [reflexivity |]. split.
  - intros [Hf | Hn].
    + rewrite Hf. reflexivity.
    + destruct (results_output env s); [contradiction | apply orb_true_r].
  - intro Hf. apply orb_true_iff in Hf. destruct Hf as [Hf | Hf]; [auto |].
    right. left. destruct (results_output env s); [discriminate | discriminate].
Qed.

End Flag.

(** The value [compile()] returns comes from a leaf of the script. *)
Lemma run_script_reports (env : Env) (sc : script) (s : CLI)
    (successful didCompileSomething : bool) (errors : list exn) :
  fst (run_script env sc s) = Ret (successful, didCompileSomething, errors) ->
  didCompileSomething = true ->
  can_report sc.
Proof.
  revert s. induction sc as [a b errs | e | kind path k IH]; intros s Hrun Hd; simpl in *.
  - inversion Hrun. subst. reflexivity.
  - discriminate.
  - unfold bind in Hrun.
    destruct (fileReader env kind path s) as [[r | e | c |] s1]; simpl in Hrun;
      try discriminate.
    exists r. apply (IH r s1); assumption.
Qed.

Lemma flag_invoke (env : Env) :
  Inv (tracks (can_report (compile_script env))) (invoke env).
Proof.
  pose proof (tracks_preorder (can_report (compile_script env))) as HR.
  intro s. unfold invoke, bind at 1.
  pose proof (flag_compile env (can_report (compile_script env)) s) as Hc.
  assert (Hval : forall a d errs,
            fst (compile env s) = Ret (a, d, errs) -> d = true ->
            can_report (compile_script env)).
  { intros a d errs Hrun Hd. unfold compile, bind, deref, modify in Hrun.
    destruct (m_compiler s); simpl in Hrun; [| discriminate].
    eapply run_script_reports; eassumption. }
  destruct (compile env s) as [[[[a d] errs] | e | c |] s1]; simpl in *; try exact Hc.
  eapply (pre_trans HR); [exact Hc |].
  assert (Hrest : Inv (tracks (can_report (compile_script env)))
            (modify (fun s0 => set_hasOutput (g_hasOutput s0 || d) s0) ;;
             for_each errs (reportError env) ;; ret a)).
  { apply (Inv_bind HR).
    - apply Inv_modify. intro s0. destruct d.
      + exists []. rewrite app_nil_r. simpl. rewrite orb_true_r.
        repeat split; auto.
        intros _. right. right. apply (Hval a true errs); reflexivity.
      + apply tracks_silent; simpl; [reflexivity | apply orb_false_r].
    - intro. apply (Inv_bind HR).
      + apply (Inv_for_each HR). intro. apply flag_reportError.
      + intro. apply (Inv_ret HR). }
  apply Hrest.
Qed.

Lemma flag_processInput (env : Env) :
  Inv (tracks (can_report (compile_script env))) (processInput env).
Proof.
  pose proof (tracks_preorder (can_report (compile_script env))) as HR.
  unfold processInput, configureAndCompile.
  repeat (first [ apply flag_readInput | apply flag_configure | apply flag_invoke
                | apply flag_handleFault | inv_step HR ltac:(tracks_base) ]).
Qed.

Lemma ast_block_on_cout env args sources argStr x :
  In x (ast_block env args sources argStr) -> fst x = Cout.
Proof.
  unfold ast_block. destruct (requested args argStr); [| contradiction].
  intros [H | H]; [subst; reflexivity |].
  induction sources as [| sc sources IH]; [contradiction |].
  simpl in H. destruct H as [H | [H | H]]; try (subst; reflexivity).
  apply IH. exact H.
Qed.

Lemma contracts_output_on_cout env args x :
  In x (contracts_output env args) -> fst x = Cout.
Proof.
  unfold contracts_output.
  induction (contractNames env) as [| c l IH]; [contradiction |].
  simpl. intro H. apply in_app_or in H. destruct H as [H | H]; [| apply IH; exact H].
  unfold contract_block, natspec_block in H.
  repeat (apply in_app_or in H; destruct H as [H | H]);
    repeat match type of H with
           | In _ (if ?b then _ else _) => destruct b
           end;
    simpl in H; intuition (subst; reflexivity).
Qed.

Lemma body_on_cout env s x :
  In x (syntax_trees env (m_args s) (m_sourceCodes s) ++ contracts_output env (m_args s)) ->
  fst x = Cout.
Proof.
  intro H. apply in_app_or in H. destruct H as [H | H].
  - unfold syntax_trees in H. apply in_app_or in H.
    destruct H as [H | H]; eapply ast_block_on_cout; exact H.
  - eapply contracts_output_on_cout; exact H.
Qed.

Lemma ast_block_on_cout_trees env args sources x :
  In x (syntax_trees env args sources) -> fst x = Cout.
Proof.
  unfold syntax_trees. intro H. apply in_app_or in H.
  destruct H as [H | H]; eapply ast_block_on_cout; exact H.
Qed.

Lemma halt_is_not_advisory : halt_notice <> advisory.
Proof. vm_compute. discriminate. Qed.

(** When the advisory is among what [outputCompilationResults] wrote. *)
Lemma advisory_written (env : Env) (s : CLI) :
  (In (Cerr, advisory) (results_output env s) <->
   g_hasOutput (wrote (written_before_the_end env s) s) = false) /\
  (In (Cerr, advisory) (results_output env s) ->
   results_output env s = [(Cerr, advisory)]).
Proof.
  unfold results_output, written_before_the_end. rewrite wrote_flag.
  destruct (compilationSuccessful env).
  - set (body := syntax_trees env (m_args s) (m_sourceCodes s) ++
                 contracts_output env (m_args s)).
    assert (Hbody : ~ In (Cerr, advisory) body).
    { intro H. apply body_on_cout in H. discriminate. }
    destruct (g_hasOutput s || negb (is_nil body)) eqn:Hflag.
    + rewrite app_nil_r. split.
      * split; [intro H; contradiction | intro H; discriminate].
      * intro H. contradiction.
    + apply orb_false_iff in Hflag. destruct Hflag as [_ Hnil].
      destruct body as [| x body']; [| discriminate].
      simpl. split; [split; auto |]. reflexivity.
  - assert (Hno : ~ In (Cerr, advisory)
                    (syntax_trees env (m_args s) (m_sourceCodes s) ++ [(Cerr, halt_notice)])).
    { intro H. apply in_app_or in H. destruct H as [H | [H | []]].
      - apply ast_block_on_cout_trees in H. discriminate.
      - apply halt_is_not_advisory. congruence. }
    assert (Hflag : g_hasOutput s ||
                    negb (is_nil (syntax_trees env (m_args s) (m_sourceCodes s) ++
                                  [(Cerr, halt_notice)])) = true).
    { destruct (syntax_trees env (m_args s) (m_sourceCodes s)); apply orb_true_r. }
    rewrite Hflag. split.
    + split; [intro H; contradiction | intro H; discriminate].
    + intro H. contradiction.
Qed.

(** C1, as the code has it.  [parseArguments] resets the flag before
    anything else, so that after it the flag is set exactly when it wrote
    something.  In [processInput] every write sets the flag and the flag,
    once set, stays set; it is set without a write only by the engine
    reporting from [compile()] that it compiled something.  In
    [outputCompilationResults], on a constructed engine, the flag is set
    exactly by the writes; the advisory is written if and only if the flag
    is still down when everything else has been written, in which case
    nothing else was written: it never comes with a syntax tree or a
    document. *)
Theorem output_flag (env : Env) (s : CLI) :
  (forall argv,
     let s' := snd (parseArguments env argv s) in
     exists new,
       out s' = out s ++ new /\
       (g_hasOutput s' = true <-> new <> [])) /\
  (let s' := snd (processInput env s) in
   exists new,
     out s' = out s ++ new /\
     (g_hasOutput s = true \/ new <> [] -> g_hasOutput s' = true) /\
     (g_hasOutput s' = true ->
      g_hasOutput s = true \/ new <> [] \/ can_report (compile_script env))) /\
  (m_compiler s = true ->
   let s' := snd (outputCompilationResults env s) in
   let at_the_end := wrote (written_before_the_end env s) s in
   exists new,
     out s' = out s ++ new /\
     (g_hasOutput s' = true <-> g_hasOutput s = true \/ new <> []) /\
     (In (Cerr, advisory) new <-> g_hasOutput at_the_end = false) /\
     (In (Cerr, advisory) new -> new = [(Cerr, advisory)]) /\
     (forall text, In (Cout, text) new -> ~ In (Cerr, advisory) new)).
Proof.
  split; [| split].
  - intros argv s'. subst s'.
    unfold parseArguments, bind at 1, modify.
    destruct (flag_parseArguments_body env False argv (set_hasOutput false s))
      as (new & Ho & Hf & Hb).
    exists new. split; [exact Ho |]. split.
    + intro H. destruct (Hb H) as [H1 | [H1 | []]]; [discriminate | exact H1].
    + intro H. apply Hf. right. exact H.
  - apply (flag_processInput env s).
  - intros H s' at_the_end. subst s' at_the_end.
    rewrite outputCompilationResults_wrote by exact H. simpl.
    exists (results_output env s). rewrite wrote_out, (wrote_flag (results_output env s)).
    destruct (advisory_written env s) as [Hiff Hall].
    split; [reflexivity |]. split; [| split; [exact Hiff | split; [exact Hall |]]].
    + rewrite orb_true_iff. split.
      * intros [Hf | Hn]; [auto |]. right.
        destruct (results_output env s); [discriminate | discriminate].
      * intros [Hf | Hn]; [auto |]. right.
        destruct (results_output env s); [contradiction | reflexivity].
    + intros text Hin Hadv. rewrite (Hall Hadv) in Hin.
      destruct Hin as [Hin | []]. discriminate.
Qed.

Lemma output_flag_witness :
  m_compiler plain_run = true /\
  let s' := snd (outputCompilationResults Sample.quiet_engine plain_run) in
  let at_the_end := wrote (written_before_the_end Sample.quiet_engine plain_run) plain_run in
  exists new,
    out s' = out plain_run ++ new /\
    (g_hasOutput s' = true <-> g_hasOutput plain_run = true \/ new <> []) /\
    (In (Cerr, advisory) new <-> g_hasOutput at_the_end = false) /\
    (In (Cerr, advisory) new -> new = [(Cerr, advisory)]) /\
    (forall text, In (Cout, text) new -> ~ In (Cerr, advisory) new).
Proof.
  assert (H : m_compiler plain_run = true) by (vm_compute; reflexivity).
  split; [exact H |].
  exact (proj2 (proj2 (output_flag Sample.quiet_engine plain_run)) H).
Defined.

(** C1 as stated fails: an engine that reports [didCompileSomething] sets
    the flag although nothing is written, and the advisory is not written
    although nothing else is. *)
Lemma flag_set_without_write :
  let r := processInput compiling_engine one_file in
  g_hasOutput one_file = false /\
  fst r = Ret true /\
  out (snd r) = [] /\
  g_hasOutput (snd r) = true /\
  out (snd (actOnInput compiling_engine (snd r))) = [] /\
  ~ flag_set_by_writes_only compiling_engine one_file.
Proof.
  assert (Hf : g_hasOutput (snd (processInput compiling_engine one_file)) = true)
    by (vm_compute; reflexivity).
  assert (Ho : out (snd (processInput compiling_engine one_file)) = out one_file)
    by (vm_compute; reflexivity).
  cbv zeta. split; [reflexivity |].
  split; [vm_compute; reflexivity |].
  split; [vm_compute; reflexivity |].
  split; [exact Hf |].
  split; [vm_compute; reflexivity |].
  intro H. apply (H eq_refl Hf). exact Ho.
Qed.

(** * Further properties *)

(** ** Members a function leaves alone *)

Section Keeps.

Variable X : Type.
Variable f : CLI -> X.

Hypothesis f_hasOutput : forall b s, f (set_hasOutput b s) = f s.
Hypothesis f_out : forall o s, f (set_out o s) = f s.
Hypothesis f_args : forall a s, f (set_args a s) = f s.
Hypothesis f_sourceCodes : forall m s, f (set_sourceCodes m s) = f s.
Hypothesis f_remappings : forall r s, f (set_remappings r s) = f s.
Hypothesis f_allowedDirectories : forall d s, f (set_allowedDirectories d s) = f s.
Hypothesis f_coloredOutput : forall b s, f (set_coloredOutput b s) = f s.
Hypothesis f_compiler : forall b s, f (set_compiler b s) = f s.
Hypothesis f_engine_log : forall l s, f (set_engine_log l s) = f s.
Hypothesis f_reader_log : forall l s, f (set_reader_log l s) = f s.
Hypothesis f_peephole_log : forall l s, f (set_peephole_log l s) = f s.

Variable env : Env.

Let HR := keeps_preorder f.

Ltac keep_base :=
  unfold keeps; cbv beta iota;
  repeat match goal with
         | |- context [if ?b then _ else _] => destruct b
         end;
  repeat first [ rewrite f_hasOutput | rewrite f_out | rewrite f_args
               | rewrite f_sourceCodes | rewrite f_remappings
               | rewrite f_allowedDirectories | rewrite f_coloredOutput
               | rewrite f_compiler | rewrite f_engine_log
               | rewrite f_reader_log | rewrite f_peephole_log ];
  reflexivity.

Ltac keep := inv_auto HR ltac:(keep_base).

Lemma keep_fileReader kind path : Inv (keeps f) (fileReader env kind path).
Proof. unfold fileReader. keep. Qed.

Lemma keep_call c : Inv (keeps f) (call env c).
Proof. unfold call. keep. Qed.

Lemma keep_run_script sc : Inv (keeps f) (run_script env sc).
Proof.
  induction sc as [a b errs | e | kind path k IH]; simpl.
  - apply (Inv_ret HR).
  - apply (Inv_throw HR).
  - apply (Inv_bind HR); [apply keep_fileReader | exact IH].
Qed.

Lemma keep_configure : Inv (keeps f) (configure env).
Proof.
  unfold configure.
  repeat (first [apply keep_call | inv_step HR ltac:(keep_base)]).
Qed.

Lemma keep_invoke : Inv (keeps f) (invoke env).
Proof.
  unfold invoke, compile, reportError.
  repeat (first [apply keep_run_script | inv_step HR ltac:(keep_base)]).
Qed.

Lemma keep_handleFault e : Inv (keeps f) (handleFault env e).
Proof.
  intro s. destruct (handleFault_cases env e s) as [-> | ->]; unfold keeps; cbn [snd].
  - rewrite f_out, f_hasOutput. reflexivity.
  - reflexivity.
Qed.

Lemma keep_readInput : Inv (keeps f) (readInputFilesAndConfigureRemappings env).
Proof.
  unfold readInputFilesAndConfigureRemappings, readToken, allowDirectoryOf,
    checkSourcesGiven.
  keep.
Qed.

(** The [try] statement of [processInput] with its handlers. *)
Lemma keep_try :
  Inv (keeps f)
    (try_catch
       (successful <- configureAndCompile env ;;
        if negb successful then ret false else ret true)
       (handleFault env)).
Proof.
  unfold configureAndCompile.
  repeat (first [ apply keep_configure | apply keep_invoke
                | apply keep_handleFault | inv_step HR ltac:(keep_base) ]).
Qed.

Lemma keep_processInput : Inv (keeps f) (processInput env).
Proof.
  unfold processInput.
  repeat (first [ apply keep_readInput | apply keep_try
                | inv_step HR ltac:(keep_base) ]).
Qed.

Lemma keep_parseArguments argv : Inv (keeps f) (parseArguments env argv).
Proof.
  unfold parseArguments, parseCommandLine, peephole, version, license. keep.
Qed.

Lemma keep_actOnInput : Inv (keeps f) (actOnInput env).
Proof.
  unfold actOnInput, outputCompilationResults, handleAst, printTree, contractOutput,
    handleNatspec.
  keep.
Qed.

End Keeps.

(** ** The result of [actOnInput] *)

Lemma wrote_error l s : m_error (wrote l s) = m_error s.
Proof. destruct l; reflexivity. Qed.

Lemma actOnInput_wrote (env : Env) (s : CLI) :
  m_compiler s = true ->
  actOnInput env s = (Ret (negb (m_error s)), wrote (results_output env s) s).
Proof.
  intro H. unfold actOnInput, bind.
  rewrite outputCompilationResults_wrote by exact H.
  unfold get, ret. rewrite wrote_error. reflexivity.
Qed.

(** X1. No function of the driver writes [m_error]: [parseArguments],
    [processInput] and [actOnInput] leave it as they found it.  On a
    constructed engine whose accessors return, [actOnInput] writes the
    results and returns the negation of [m_error], whether or not the
    engine says the compilation was successful: a failed compilation does
    not make it return [false]. *)
Theorem m_error_is_never_written (env : Env) (s : CLI) :
  (forall argv, m_error (snd (parseArguments env argv s)) = m_error s) /\
  m_error (snd (processInput env s)) = m_error s /\
  m_error (snd (actOnInput env s)) = m_error s /\
  (m_compiler s = true ->
   actOnInput env s = (Ret (negb (m_error s)), wrote (results_output env s) s)).
Proof.
  split; [| split; [| split]].
  - intro argv. apply (@keep_parseArguments _ m_error); intros; reflexivity.
  - apply (@keep_processInput _ m_error); intros; reflexivity.
  - apply (@keep_actOnInput _ m_error); intros; reflexivity.
  - apply actOnInput_wrote.
Qed.

Lemma m_error_is_never_written_witness :
  m_compiler failed_run = true /\
  compilationSuccessful erring_engine = false /\
  m_error failed_run = false /\
  fst (actOnInput erring_engine failed_run) = Ret true.
Proof.
  assert (H : m_compiler failed_run = true) by (vm_compute; reflexivity).
  assert (He : m_error failed_run = false) by (vm_compute; reflexivity).
  split; [exact H |]. split; [reflexivity |]. split; [exact He |].
  destruct (m_error_is_never_written erring_engine failed_run) as (_ & _ & _ & P).
  rewrite (P H). cbn [fst]. rewrite He. reflexivity.
Defined.

(** ** Loading that does not succeed *)

(** X2. When the loading of the input does not return [true],
    [processInput] ends as the loading did, with the same value or the same
    throw and the same state: the engine is not constructed, no call is made
    on it, and the read callback is not called. *)
Theorem processInput_stops_at_loading (env : Env) (s : CLI) :
  fst (readInputFilesAndConfigureRemappings env s) <> Ret true ->
  processInput env s = readInputFilesAndConfigureRemappings env s /\
  m_compiler (snd (processInput env s)) = m_compiler s /\
  engine_log (snd (processInput env s)) = engine_log s /\
  reader_log (snd (processInput env s)) = reader_log s.
Proof.
  intro H.
  assert (E : processInput env s = readInputFilesAndConfigureRemappings env s).
  { unfold processInput, bind.
    destruct (readInputFilesAndConfigureRemappings env s) as [[[|] | e | c |] s1];
      cbn [fst] in H; try reflexivity.
    contradiction H. reflexivity. }
  rewrite E. split; [reflexivity |]. split; [| split].
  - apply (@keep_readInput _ m_compiler); intros; reflexivity.
  - apply (@keep_readInput _ engine_log); intros; reflexivity.
  - apply (@keep_readInput _ reader_log); intros; reflexivity.
Qed.

Lemma processInput_stops_at_loading_witness :
  fst (readInputFilesAndConfigureRemappings Sample.quiet_engine missing_given) <> Ret true /\
  processInput Sample.quiet_engine missing_given =
    readInputFilesAndConfigureRemappings Sample.quiet_engine missing_given /\
  m_compiler (snd (processInput Sample.quiet_engine missing_given)) = m_compiler missing_given /\
  engine_log (snd (processInput Sample.quiet_engine missing_given)) = engine_log missing_given /\
  reader_log (snd (processInput Sample.quiet_engine missing_given)) = reader_log missing_given.
Proof.
  assert (H : fst (readInputFilesAndConfigureRemappings Sample.quiet_engine missing_given)
              <> Ret true) by (vm_compute; discriminate).
  split; [exact H |].
  exact (@processInput_stops_at_loading Sample.quiet_engine missing_given H).
Defined.

(** X3. An input token without an equals sign must name a regular file.
    When the file system says the path does not exist, [processInput]
    writes that it is not found; when it exists and is not a regular file,
    that it is not a valid file.  In both cases the path is written between
    quotes, the value is [false], and nothing else changes: nothing is
    loaded, no directory is allowed, the engine is not constructed. *)
Theorem input_file_must_be_regular (env : Env) (s : CLI) (t : string) :
  vm_find g_argInputFile (m_args s) = Some (Some t) ->
  after_first "="%char t = None ->
  (fs_exists env t = inr false ->
   processInput env s =
     (Ret false, wrote [(Cerr, (quoted t ++ " is not found." ++ endl)%string)] s)) /\
  (fs_exists env t = inr true ->
   fs_is_regular_file env t = inr false ->
   processInput env s =
     (Ret false, wrote [(Cerr, (quoted t ++ " is not a valid file." ++ endl)%string)] s)).
Proof.
  intros Hfind Heq.
  assert (E : forall r, readToken env t s = (Ret false, r) -> processInput env s = (Ret false, r)).
  { intros r Hr. unfold processInput, bind.
    rewrite (@readInput_token env s t Hfind), Hr. reflexivity. }
  split.
  - intro Hex. apply E. unfold readToken. rewrite Heq. unfold bind. rewrite Hex.
    reflexivity.
  - intros Hex Hreg. apply E. unfold readToken. rewrite Heq. unfold bind.
    rewrite Hex. cbn [lift ret negb]. rewrite Hreg. reflexivity.
Qed.

Lemma input_file_must_be_regular_witness :
  vm_find g_argInputFile (m_args directory_given) = Some (Some "lib"%string) /\
  after_first "="%char "lib" = None /\
  fs_exists Sample.quiet_engine "lib" = inr true /\
  fs_is_regular_file Sample.quiet_engine "lib" = inr false /\
  processInput Sample.quiet_engine directory_given =
    (Ret false,
     wrote [(Cerr, (quoted "lib" ++ " is not a valid file." ++ endl)%string)] directory_given).
Proof.
  assert (H1 : vm_find g_argInputFile (m_args directory_given) = Some (Some "lib"%string))
    by reflexivity.
  assert (H2 : after_first "="%char "lib" = None) by reflexivity.
  assert (H3 : fs_exists Sample.quiet_engine "lib" = inr true) by (vm_compute; reflexivity).
  assert (H4 : fs_is_regular_file Sample.quiet_engine "lib" = inr false)
    by (vm_compute; reflexivity).
  repeat (split; [assumption |]).
  exact (proj2 (@input_file_must_be_regular Sample.quiet_engine directory_given "lib"%string H1 H2) H3 H4).
Defined.

(** ** The configuration of the engine *)

Section Configuration.

Variable args : variables_map.

Lemma Runs_ret A (a : A) : Runs args (ret a) a [] [].
Proof.
  intros s Hc Ha. exists s. rewrite !app_nil_r, orb_false_r. repeat split; auto.
Qed.

Lemma Runs_bind A B (m : M A) (k : A -> M B) (a : A) (b : B) c1 c2 w1 w2 :
  Runs args m a c1 w1 ->
  Runs args (k a) b c2 w2 ->
  Runs args (bind m k) b (c1 ++ c2) (w1 ++ w2).
Proof.
  intros Hm Hk s Hc Ha.
  destruct (Hm s Hc Ha) as (s1 & E1 & Hc1 & Ha1 & L1 & O1 & F1 & S1 & R1 & D1).
  destruct (Hk s1 Hc1 Ha1) as (s2 & E2 & Hc2 & Ha2 & L2 & O2 & F2 & S2 & R2 & D2).
  exists s2. unfold bind. rewrite E1, E2.
  rewrite L2, L1, O2, O1, F2, F1, S2, S1, R2, R1, D2, D1, !app_assoc.
  repeat split; auto.
  rewrite <- orb_assoc. f_equal.
  destruct w1; destruct w2; reflexivity.
Qed.

Lemma Runs_eq A (m : M A) (a : A) c c' w w' :
  Runs args m a c w -> c = c' -> w = w' -> Runs args m a c' w'.
Proof. intros H Hc Hw. subst. exact H. Qed.

Lemma Runs_when (b : bool) (m : M unit) c w :
  (b = true -> Runs args m tt c w) ->
  Runs args (when b m) tt (if b then c else []) (if b then w else []).
Proof.
  destruct b; intro H; simpl.
  - apply H. reflexivity.
  - apply Runs_ret.
Qed.

Lemma Runs_call (env : Env) (c : engine_call) :
  on_call env c = None -> Runs args (call env c) tt [c] [].
Proof.
  intros Hok s Hc Ha. unfold call, bind, deref, modify. rewrite Hc, Hok.
  eexists. split; [reflexivity |]. cbn.
  rewrite app_nil_r, orb_false_r. repeat split; auto.
Qed.

Lemma Runs_as_string (name v : string) :
  vm_find name args = Some (Some v) -> Runs args (as_string name) v [] [].
Proof.
  intros Hfind s Hc Ha. unfold as_string, bind, get. rewrite Ha, Hfind.
  exists s. rewrite !app_nil_r, orb_false_r. repeat split; auto.
Qed.

Lemma Runs_serr (t : string) : Runs args (serr t) tt [] [(Cerr, t)].
Proof.
  intros s Hc Ha. eexists. split; [reflexivity |]. cbn.
  rewrite app_nil_r, orb_true_r. repeat split; auto.
Qed.

(** An option that is given and holds a string holds [value_of]. *)
Lemma value_of_given (name : string) :
  absent_or_string args name ->
  requested args name = true ->
  vm_find name args = Some (Some (value_of args name)).
Proof.
  unfold absent_or_string, requested, count, value_of.
  destruct (vm_find name args) as [[v |] |]; intros H Hr.
  - reflexivity.
  - contradiction H. reflexivity.
  - discriminate.
Qed.

Lemma count_zero (name : string) :
  Nat.eqb (count args name) 0 = negb (requested args name).
Proof.
  unfold requested, count. destruct (vm_find name args); reflexivity.
Qed.

End Configuration.

Lemma if_same A (b : bool) (x : A) : (if b then x else x) = x.
Proof. destruct b; reflexivity. Qed.

Lemma configure_runs (env : Env) (s : CLI) :
  (forall c, on_call env c = None) ->
  (exists v, vm_find g_argInputFile (m_args s) = Some (Some v)) ->
  absent_or_string (m_args s) g_argSetContract ->
  absent_or_string (m_args s) g_argOutputDir ->
  absent_or_string (m_args s) g_argFile ->
  m_compiler s = true ->
  exists s',
    configure env s = (Ret tt, s') /\
    m_compiler s' = true /\
    m_args s' = m_args s /\
    engine_log s' = engine_log s ++ configure_calls s /\
    out s' = out s ++
      (if requested (m_args s) g_argTvmOptimize then [(Cerr, deprecation_notice)] else []) /\
    g_hasOutput s' = g_hasOutput s || requested (m_args s) g_argTvmOptimize /\
    m_sourceCodes s' = m_sourceCodes s /\
    m_remappings s' = m_remappings s /\
    reader_log s' = reader_log s.
Proof.
  intros Hok [v Hv] Hcontract Hdir Hfile Hc.
  assert (Hinput : vm_find g_argInputFile (m_args s) =
                   Some (Some (value_of (m_args s) g_argInputFile))).
  { unfold value_of. rewrite Hv. reflexivity. }
  unfold configure, bind at 1, get.
  match goal with
  | |- exists s', ?m s = _ /\ _ =>
      assert (HRuns : Runs (m_args s) m tt (configure_calls s)
                (if requested (m_args s) g_argTvmOptimize
                 then [(Cerr, deprecation_notice)] else []))
  end.
  { eapply Runs_eq.
    - eapply Runs_bind; [apply Runs_when; intro; apply Runs_call; apply Hok |].
      eapply Runs_bind; [apply Runs_call; apply Hok |].
      eapply Runs_bind; [apply Runs_when; intro; apply Runs_call; apply Hok |].
      eapply Runs_bind.
      { apply Runs_when. intro Hg.
        eapply Runs_bind;
          [apply Runs_as_string; apply (value_of_given Hcontract Hg)
          | apply Runs_call; apply Hok]. }
      eapply Runs_bind.
      { apply Runs_when. intro Hg.
        eapply Runs_bind;
          [apply Runs_as_string; apply (value_of_given Hdir Hg)
          | apply Runs_call; apply Hok]. }
      eapply Runs_bind.
      { apply Runs_when. intro Hg.
        eapply Runs_bind;
          [apply Runs_as_string; apply (value_of_given Hfile Hg)
          | apply Runs_call; apply Hok]. }
      eapply Runs_bind; [apply Runs_when; intro; apply Runs_call; apply Hok |].
      eapply Runs_bind; [apply Runs_when; intro; apply Runs_call; apply Hok |].
      eapply Runs_bind.
      { apply Runs_when. intro.
        eapply Runs_bind; apply Runs_call; apply Hok. }
      eapply Runs_bind; [apply Runs_call; apply Hok |].
      eapply Runs_bind; [apply Runs_when; intro; apply Runs_serr |].
      eapply Runs_bind; [apply Runs_when; intro; apply Runs_call; apply Hok |].
      eapply Runs_bind; [apply Runs_as_string; exact Hinput | apply Runs_call; apply Hok].
    - unfold configure_calls, given. rewrite !count_zero. unfold requested.
      repeat match goal with
             | |- context [Nat.ltb 0 (count (m_args s) ?n)] =>
                 destruct (Nat.ltb 0 (count (m_args s) n))
             end; reflexivity.
    - unfold given, requested.
      repeat (cbn [app]; rewrite ?if_same).
      destruct (Nat.ltb 0 (count (m_args s) g_argTvmOptimize)); reflexivity. }
  destruct (HRuns s Hc eq_refl) as (s' & E & H1 & H2 & H3 & H4 & H5 & H6 & H7 & H8).
  exists s'. rewrite E, H3, H4, H5.
  repeat split; auto.
  destruct (requested (m_args s) g_argTvmOptimize); reflexivity.
Qed.

(** X4. On an engine that accepts every call, with an input file given and
    the options that take a value holding one, [configure] returns after
    making exactly the calls of [configure_calls], in that order: the
    remappings and the sources, the settings that were asked for, the
    selection of artifacts, the optimizations always, the debug
    information when asked for, and the input file last.  The option
    [tvm-optimize] adds no call; it only has the deprecation notice written.
    Nothing is loaded and the read callback is not called. *)
Theorem configure_calls_in_order (env : Env) (s : CLI) :
  (forall c, on_call env c = None) ->
  (exists v, vm_find g_argInputFile (m_args s) = Some (Some v)) ->
  absent_or_string (m_args s) g_argSetContract ->
  absent_or_string (m_args s) g_argOutputDir ->
  absent_or_string (m_args s) g_argFile ->
  m_compiler s = true ->
  exists s',
    configure env s = (Ret tt, s') /\
    engine_log s' = engine_log s ++ configure_calls s /\
    out s' = out s ++
      (if requested (m_args s) g_argTvmOptimize then [(Cerr, deprecation_notice)] else []) /\
    m_sourceCodes s' = m_sourceCodes s /\
    reader_log s' = reader_log s.
Proof.
  intros Hok Hin Hcontract Hdir Hfile Hc.
  destruct (configure_runs env s Hok Hin Hcontract Hdir Hfile Hc)
    as (s' & E & _ & _ & Hl & Ho & _ & Hs & _ & Hr).
  exists s'. auto.
Qed.

Lemma configure_calls_in_order_witness :
  (forall c, on_call Sample.quiet_engine c = None) /\
  (exists v, vm_find g_argInputFile (m_args abi_only_state) = Some (Some v)) /\
  absent_or_string (m_args abi_only_state) g_argSetContract /\
  absent_or_string (m_args abi_only_state) g_argOutputDir /\
  absent_or_string (m_args abi_only_state) g_argFile /\
  m_compiler abi_only_state = true /\
  configure_calls abi_only_state =
    [SetRemappings []; SetSources [("a.sol", "contract C {}")];
     SetMainContract "Wallet"; GenerateAbi; WithOptimizations;
     SetInputFile "a.sol"]%string /\
  exists s',
    configure Sample.quiet_engine abi_only_state = (Ret tt, s') /\
    engine_log s' = engine_log abi_only_state ++ configure_calls abi_only_state /\
    out s' = out abi_only_state ++
      (if requested (m_args abi_only_state) g_argTvmOptimize
       then [(Cerr, deprecation_notice)] else []) /\
    m_sourceCodes s' = m_sourceCodes abi_only_state /\
    reader_log s' = reader_log abi_only_state.
Proof.
  assert (H1 : forall c, on_call Sample.quiet_engine c = None) by (intro; reflexivity).
  assert (H2 : exists v, vm_find g_argInputFile (m_args abi_only_state) = Some (Some v))
    by (exists "a.sol"%string; vm_compute; reflexivity).
  assert (H3 : absent_or_string (m_args abi_only_state) g_argSetContract)
    by (vm_compute; discriminate).
  assert (H4 : absent_or_string (m_args abi_only_state) g_argOutputDir)
    by (vm_compute; discriminate).
  assert (H5 : absent_or_string (m_args abi_only_state) g_argFile)
    by (vm_compute; discriminate).
  assert (H6 : m_compiler abi_only_state = true) by (vm_compute; reflexivity).
  repeat (split; [assumption |]).
  split; [vm_compute; reflexivity |].
  exact (@configure_calls_in_order Sample.quiet_engine abi_only_state H1 H2 H3 H4 H5 H6).
Defined.

(** ** The selection of artifacts *)

Lemma calls_satisfy_preorder (P : engine_call -> Prop) : preorder (calls_satisfy P).
Proof.
  split.
  - intro s. exists []. rewrite app_nil_r. split; [reflexivity | constructor].
  - intros s1 s2 s3 (n1 & E1 & F1) (n2 & E2 & F2).
    exists (n1 ++ n2). rewrite E2, E1, app_assoc. split; [reflexivity |].
    apply Forall_app. split; assumption.
Qed.

(** An assignment that leaves the log of engine calls alone. *)
Lemma calls_satisfy_silent (P : engine_call -> Prop) (s s' : CLI) :
  engine_log s' = engine_log s -> calls_satisfy P s s'.
Proof.
  intro H. exists []. rewrite app_nil_r. split; [exact H | constructor].
Qed.

Section Selection.

Variable env : Env.
Variable P : engine_call -> Prop.

Let HR := calls_satisfy_preorder P.

Ltac silent := inv_auto HR ltac:(apply calls_satisfy_silent; reflexivity).

Lemma satisfy_call (c : engine_call) : P c -> Inv (calls_satisfy P) (call env c).
Proof.
  intro Hc. unfold call.
  apply (Inv_bind HR); [apply (Inv_deref HR) | intro].
  apply (Inv_bind HR).
  - apply Inv_modify. intro s. exists [c]. split; [reflexivity |].
    constructor; [exact Hc | constructor].
  - intro. destruct (on_call env c); [apply (Inv_throw HR) | apply (Inv_ret HR)].
Qed.

Lemma satisfy_fileReader kind path : Inv (calls_satisfy P) (fileReader env kind path).
Proof. unfold fileReader. silent. Qed.

Lemma satisfy_run_script sc : Inv (calls_satisfy P) (run_script env sc).
Proof.
  induction sc as [a b errs | e | kind path k IH]; simpl.
  - apply (Inv_ret HR).
  - apply (Inv_throw HR).
  - apply (Inv_bind HR); [apply satisfy_fileReader | exact IH].
Qed.

Lemma satisfy_invoke : P Compile -> Inv (calls_satisfy P) (invoke env).
Proof.
  intro Hc. unfold invoke, compile, reportError.
  apply (Inv_bind HR).
  - apply (Inv_bind HR); [apply (Inv_deref HR) | intro].
    apply (Inv_bind HR); [| intro; apply satisfy_run_script].
    apply Inv_modify. intro s. exists [Compile]. split; [reflexivity |].
    constructor; [exact Hc | constructor].
  - intro. silent.
Qed.

Lemma satisfy_handleFault e : Inv (calls_satisfy P) (handleFault env e).
Proof.
  intro s. destruct (handleFault_cases env e s) as [-> | ->];
    apply calls_satisfy_silent; reflexivity.
Qed.

End Selection.

Lemma satisfy_configure (env : Env) (s : CLI) :
  calls_satisfy (selection_justified (m_args s)) s (snd (configure env s)).
Proof.
  pose proof (calls_satisfy_preorder (selection_justified (m_args s))) as HR.
  unfold configure, bind at 1, get.
  match goal with
  | |- calls_satisfy _ s (snd (?m s)) =>
      assert (H : Inv (calls_satisfy (selection_justified (m_args s))) m)
  end; [| apply H].
  repeat match goal with
         | |- Inv _ (bind _ _) => apply (Inv_bind HR); [| intro]
         | |- Inv _ (when ?b _) => destruct b eqn:?; cbn [when]
         | |- Inv _ (ret _) => apply (Inv_ret HR)
         | |- Inv _ (as_string _) => apply (Inv_as_string HR)
         | |- Inv _ (serr _) =>
             apply Inv_modify; intro; apply calls_satisfy_silent; reflexivity
         | |- Inv _ (call _ GenerateAbi) => apply satisfy_call
         | |- Inv _ (call _ GenerateCode) => apply satisfy_call
         | |- Inv _ (call _ _) => apply satisfy_call; exact I
         end.
  all: cbn [selection_justified]; unfold given in *; fold (requested (m_args s)) in *.
  all: try (left; assumption).
  all: match goal with
       | E : (_ && _)%bool = true |- _ =>
           apply andb_prop in E; destruct E as [E1 E2];
           rewrite count_zero in E1, E2;
           apply negb_true_iff in E1; apply negb_true_iff in E2
       end.
  all: right; assumption.
Qed.

Lemma satisfy_configureAndCompile (env : Env) (s : CLI) :
  calls_satisfy (selection_justified (m_args s)) s (snd (configureAndCompile env s)).
Proof.
  pose proof (calls_satisfy_preorder (selection_justified (m_args s))) as HR.
  unfold configureAndCompile, bind.
  pose proof (satisfy_configure env s) as Hconf.
  destruct (configure env s) as [[[] | e | c |] s1]; cbn [snd] in *; try exact Hconf.
  eapply (pre_trans HR); [exact Hconf |].
  apply satisfy_invoke. exact I.
Qed.

Lemma satisfy_try (env : Env) (s : CLI) :
  calls_satisfy (selection_justified (m_args s)) s
    (snd (try_catch
            (bind (configureAndCompile env)
               (fun successful => if negb successful then ret false else ret true))
            (handleFault env) s)).
Proof.
  pose proof (calls_satisfy_preorder (selection_justified (m_args s))) as HR.
  unfold try_catch, bind.
  pose proof (satisfy_configureAndCompile env s) as H.
  destruct (configureAndCompile env s) as [[[|] | e | c |] s1]; cbn [snd negb] in *;
    try exact H.
  eapply (pre_trans HR); [exact H | apply satisfy_handleFault].
Qed.

(** X5. The engine is asked for an artifact only when the options justify
    it, whatever else happens in [processInput] and however it ends: for
    the interface description only when [tvm-abi] was given or [tvm] was
    not, for the code only when [tvm] was given or [tvm-abi] was not.  So
    with only [tvm-abi] given the engine is never asked for code, and with
    only [tvm] given never for the interface description. *)
Theorem artifact_selection_justified (env : Env) (s : CLI) :
  exists new,
    engine_log (snd (processInput env s)) = engine_log s ++ new /\
    (In GenerateAbi new ->
     requested (m_args s) g_argTvmABI = true \/ requested (m_args s) g_argTvm = false) /\
    (In GenerateCode new ->
     requested (m_args s) g_argTvm = true \/ requested (m_args s) g_argTvmABI = false).
Proof.
  set (P := selection_justified (m_args s)).
  pose proof (calls_satisfy_preorder P) as HR.
  assert (H : calls_satisfy P s (snd (processInput env s))).
  { unfold processInput, bind at 1.
    assert (Hargs : m_args (snd (readInputFilesAndConfigureRemappings env s)) = m_args s)
      by (apply (@keep_readInput _ m_args); intros; reflexivity).
    assert (Hlog : engine_log (snd (readInputFilesAndConfigureRemappings env s)) =
                   engine_log s)
      by (apply (@keep_readInput _ engine_log); intros; reflexivity).
    destruct (readInputFilesAndConfigureRemappings env s) as [[loaded | e | c |] s1];
      cbn [snd] in *; try (apply calls_satisfy_silent; exact Hlog).
    destruct loaded; cbn [negb]; [| apply calls_satisfy_silent; exact Hlog].
    unfold bind at 1, modify.
    eapply (pre_trans HR);
      [apply (@calls_satisfy_silent P s (set_compiler true s1)); exact Hlog |].
    pose proof (satisfy_try env (set_compiler true s1)) as Htry.
    cbn [m_args set_compiler] in Htry. rewrite Hargs in Htry. exact Htry. }
  destruct H as (new & E & F). exists new. split; [exact E |].
  rewrite Forall_forall in F. split; intro Hin; exact (F _ Hin).
Qed.

(** ** The diagnostics of the engine *)

Lemma reportErrors_wrote (env : Env) (errors : list exn) (s : CLI) :
  for_each errors (reportError env) s =
  (Ret tt, wrote (map (fun error => (Cerr, printErrorInformation env error)) errors) s).
Proof.
  revert s. induction errors as [| e errors IH]; intro s; [reflexivity |].
  cbn [for_each map]. unfold bind.
  change (reportError env e s)
    with (Ret tt, wrote [(Cerr, printErrorInformation env e)] s).
  cbv beta iota. rewrite IH, wrote_app. reflexivity.
Qed.

(** X6. When the input is loaded, the configuration goes through and
    [compile()] returns, [processInput] returns the engine's [successful];
    before that it has every error of the engine formatted and written on
    the diagnostic stream, in the engine's order, whether the compilation
    was successful or not.  The output flag is then set if it was set, if
    the engine compiled something, or if there was an error to write. *)
Theorem processInput_reports_every_error
    (env : Env) (s s1 s2 s3 : CLI) (successful didCompileSomething : bool)
    (errors : list exn) :
  readInputFilesAndConfigureRemappings env s = (Ret true, s1) ->
  configure env (set_compiler true s1) = (Ret tt, s2) ->
  compile env s2 = (Ret (successful, didCompileSomething, errors), s3) ->
  exists s4,
    processInput env s = (Ret successful, s4) /\
    out s4 = out s3 ++ map (fun error => (Cerr, printErrorInformation env error)) errors /\
    g_hasOutput s4 =
      g_hasOutput s3 || didCompileSomething || negb (is_nil errors) /\
    engine_log s4 = engine_log s3 /\
    m_sourceCodes s4 = m_sourceCodes s3.
Proof.
  intros Hload Hconf Hcomp.
  unfold processInput, bind at 1. rewrite Hload. cbn [negb].
  unfold bind at 1, modify. unfold try_catch, bind at 1.
  unfold configureAndCompile, bind at 1. rewrite Hconf.
  unfold invoke, bind at 1. rewrite Hcomp.
  unfold bind at 1, modify. unfold bind at 1. rewrite reportErrors_wrote.
  unfold ret.
  eexists. split.
  - destruct successful; reflexivity.
  - rewrite wrote_out, wrote_flag.
    destruct errors; cbn [wrote map]; repeat split; reflexivity.
Qed.

Lemma processInput_reports_every_error_witness :
  exists s1 s2 s3,
    readInputFilesAndConfigureRemappings erring_engine one_file = (Ret true, s1) /\
    configure erring_engine (set_compiler true s1) = (Ret tt, s2) /\
    compile erring_engine s2 =
      (Ret (false, false, [type_error "first"; type_error "second"]), s3) /\
    exists s4,
      processInput erring_engine one_file = (Ret false, s4) /\
      out s4 =
        out s3 ++
        map (fun error => (Cerr, printErrorInformation erring_engine error))
          [type_error "first"; type_error "second"] /\
      g_hasOutput s4 =
        g_hasOutput s3 || false ||
        negb (is_nil [type_error "first"; type_error "second"]) /\
      engine_log s4 = engine_log s3 /\
      m_sourceCodes s4 = m_sourceCodes s3.
Proof.
  pose (s1 := snd (readInputFilesAndConfigureRemappings erring_engine one_file)).
  pose (s2 := snd (configure erring_engine (set_compiler true s1))).
  pose (s3 := snd (compile erring_engine s2)).
  assert (H1 : readInputFilesAndConfigureRemappings erring_engine one_file = (Ret true, s1))
    by (vm_compute; reflexivity).
  assert (H2 : configure erring_engine (set_compiler true s1) = (Ret tt, s2))
    by (vm_compute; reflexivity).
  assert (H3 : compile erring_engine s2 =
               (Ret (false, false, [type_error "first"; type_error "second"]), s3))
    by (vm_compute; reflexivity).
  exists s1, s2, s3. repeat (split; [assumption |]).
  exact (@processInput_reports_every_error erring_engine one_file s1 s2 s3
           false false [type_error "first"; type_error "second"] H1 H2 H3).
Defined.

(** ** The ways out of [parseArguments] *)

(** What [parseArguments] does once the options are stored. *)
Lemma parseArguments_stored (env : Env) (argv : list string) (s : CLI)
    (options : list parsed_option) (m : variables_map) :
  cmdline_run None false (tl argv) = inr options ->
  store options (m_args s) = (None, m) ->
  let s0 := set_args m (set_hasOutput false s) in
  parseArguments env argv s =
  if requested m g_argTvmABI && requested m g_argTvm then
    (Ret false, wrote [(Cerr, mutually_exclusive_message)] s0)
  else if requested m g_argTvmPeephole then peephole argv s0
  else if requested m g_argHelp || (isatty_stdin env && Nat.eqb (length argv) 1) then
    (Ret false, wrote [(Cout, desc env)] (set_coloredOutput (isatty_stderr env) s0))
  else if requested m g_argVersion then
    (Exit 0,
     wrote [(Cout, ("solc, the solidity compiler commandline interface" ++ endl ++
                    "Version: " ++ VersionString env ++ endl)%string)]
       (set_coloredOutput (isatty_stderr env) s0))
  else if requested m g_strLicense then
    (Exit 0,
     wrote [(Cout, (otherLicenses env ++ endl)%string);
            (Cout, (licenseText env ++ endl)%string)]
       (set_coloredOutput (isatty_stderr env) s0))
  else (Ret true, set_coloredOutput (isatty_stderr env) s0).
Proof.
  intros Hrun Hstore s0. subst s0.
  unfold parseArguments, parseCommandLine, bind, modify, get, given, requested, ret.
  rewrite Hrun. cbn [m_args set_hasOutput]. rewrite Hstore.
  cbv beta iota zeta. cbn [negb m_args set_args set_hasOutput set_coloredOutput].
  destruct (Nat.ltb 0 (count m g_argTvmABI) && Nat.ltb 0 (count m g_argTvm));
    [reflexivity |].
  destruct (Nat.ltb 0 (count m g_argTvmPeephole)); [reflexivity |].
  destruct (Nat.ltb 0 (count m g_argHelp) || (isatty_stdin env && Nat.eqb (length argv) 1));
    [reflexivity |].
  destruct (Nat.ltb 0 (count m g_argVersion)); [reflexivity |].
  destruct (Nat.ltb 0 (count m g_strLicense)); [| reflexivity].
  unfold license, bind, exit. rewrite sout_wrote. cbv beta iota.
  rewrite sout_wrote, wrote_app. reflexivity.
Qed.

Lemma parseArguments_not_stored (env : Env) (argv : list string) (s : CLI) :
  (forall options, cmdline_run None false (tl argv) = inr options ->
     fst (store options (m_args s)) <> None) ->
  fst (parseArguments env argv s) = Ret false.
Proof.
  intro H. unfold parseArguments, parseCommandLine, bind, modify, get.
  destruct (cmdline_run None false (tl argv)) as [e | options]; [reflexivity |].
  specialize (H options eq_refl). cbn [m_args set_hasOutput].
  destruct (store options (m_args s)) as [[e |] m]; [reflexivity |].
  contradiction H. reflexivity.
Qed.

(** X7. [parseArguments] returns [true] only for a command line that asks
    for a compilation: the options are stored, not both [tvm-abi] and [tvm]
    are among them, and none of [tvm-peephole], [help], [version] and
    [license] is; nothing was written, the output flag is down, and the
    colouring of diagnostics is what the terminal test of the diagnostic
    stream gave. *)
Theorem parseArguments_true (env : Env) (argv : list string) (s : CLI) :
  fst (parseArguments env argv s) = Ret true ->
  let s' := snd (parseArguments env argv s) in
  exists options,
    cmdline_run None false (tl argv) = inr options /\
    store options (m_args s) = (None, m_args s') /\
    (requested (m_args s') g_argTvmABI && requested (m_args s') g_argTvm = false) /\
    requested (m_args s') g_argTvmPeephole = false /\
    requested (m_args s') g_argHelp = false /\
    requested (m_args s') g_argVersion = false /\
    requested (m_args s') g_strLicense = false /\
    out s' = out s /\
    g_hasOutput s' = false /\
    m_coloredOutput s' = isatty_stderr env.
Proof.
  intros H s'. subst s'.
  destruct (cmdline_run None false (tl argv)) as [e | options] eqn:Hrun.
  { rewrite parseArguments_not_stored in H; [discriminate |].
    intros options Ho. rewrite Hrun in Ho. discriminate. }
  destruct (store options (m_args s)) as [[e |] m] eqn:Hstore.
  { rewrite parseArguments_not_stored in H; [discriminate |].
    intros options' Ho. rewrite Hrun in Ho. inversion Ho. subst.
    rewrite Hstore. discriminate. }
  rewrite (parseArguments_stored env argv s Hrun Hstore) in *. cbv zeta in *.
  exists options.
  destruct (requested m g_argTvmABI && requested m g_argTvm) eqn:Hboth; [discriminate |].
  destruct (requested m g_argTvmPeephole) eqn:Hpeep.
  { unfold peephole in H.
    destruct (find _ (tl argv)); discriminate. }
  destruct (requested m g_argHelp) eqn:Hhelp; [discriminate |]. cbn [orb] in *.
  destruct (isatty_stdin env && Nat.eqb (length argv) 1); [discriminate |].
  destruct (requested m g_argVersion) eqn:Hversion; [discriminate |].
  destruct (requested m g_strLicense) eqn:Hlicense; [discriminate |].
  cbn [snd m_args set_coloredOutput set_args set_hasOutput out g_hasOutput
       m_coloredOutput].
  rewrite Hboth, Hpeep, Hhelp, Hversion, Hlicense.
  repeat split; auto.
Qed.

Lemma parseArguments_true_witness :
  fst (parseArguments Sample.quiet_engine ["solc"; "--debug"; "a.sol"]%string fresh) =
    Ret true /\
  let s' := snd (parseArguments Sample.quiet_engine ["solc"; "--debug"; "a.sol"]%string fresh) in
  exists options,
    cmdline_run None false (tl ["solc"; "--debug"; "a.sol"]%string) = inr options /\
    store options (m_args fresh) = (None, m_args s') /\
    (requested (m_args s') g_argTvmABI && requested (m_args s') g_argTvm = false) /\
    requested (m_args s') g_argTvmPeephole = false /\
    requested (m_args s') g_argHelp = false /\
    requested (m_args s') g_argVersion = false /\
    requested (m_args s') g_strLicense = false /\
    out s' = out fresh /\
    g_hasOutput s' = false /\
    m_coloredOutput s' = isatty_stderr Sample.quiet_engine.
Proof.
  assert (H : fst (parseArguments Sample.quiet_engine
                     ["solc"; "--debug"; "a.sol"]%string fresh) = Ret true)
    by (vm_compute; reflexivity).
  split; [exact H |].
  exact (@parseArguments_true Sample.quiet_engine ["solc"; "--debug"; "a.sol"]%string
           fresh H).
Defined.

(** X8. With [tvm-peephole] given (and not both artifact flags), nothing is
    compiled: [parseArguments] returns [false].  The peephole pass is run
    once, on the first argument after the program name that is not the
    flag itself, whatever that argument is, and nothing is written; when
    there is no such argument the missing-file-name message is written and
    the pass is not run. *)
Theorem peephole_mode (env : Env) (argv : list string) (s : CLI)
    (options : list parsed_option) (m : variables_map) :
  cmdline_run None false (tl argv) = inr options ->
  store options (m_args s) = (None, m) ->
  requested m g_argTvmABI && requested m g_argTvm = false ->
  requested m g_argTvmPeephole = true ->
  let r := parseArguments env argv s in
  fst r = Ret false /\
  engine_log (snd r) = engine_log s /\
  m_sourceCodes (snd r) = m_sourceCodes s /\
  match peephole_target argv with
  | Some a => peephole_log (snd r) = peephole_log s ++ [a] /\ out (snd r) = out s
  | None =>
      peephole_log (snd r) = peephole_log s /\
      out (snd r) = out s ++ [(Cerr, missing_filename_message)]
  end.
Proof.
  intros Hrun Hstore Hboth Hpeep r. subst r.
  rewrite (parseArguments_stored env argv s Hrun Hstore). cbv zeta.
  rewrite Hboth, Hpeep. unfold peephole, peephole_target.
  destruct (find (fun a => negb (String.eqb a "--tvm-peephole")) (tl argv)) as [a |] eqn:Hfind.
  - change (find (fun a0 => negb (String.eqb a0 ("--" ++ g_argTvmPeephole))) (tl argv))
      with (find (fun a => negb (String.eqb a "--tvm-peephole")) (tl argv)).
    rewrite Hfind. cbn. repeat split; reflexivity.
  - change (find (fun a0 => negb (String.eqb a0 ("--" ++ g_argTvmPeephole))) (tl argv))
      with (find (fun a => negb (String.eqb a "--tvm-peephole")) (tl argv)).
    rewrite Hfind. cbn. repeat split; reflexivity.
Qed.

Lemma peephole_mode_witness :
  let argv := ["solc"; "--debug"; "--tvm-peephole"; "a.code"]%string in
  let m := [(g_argDebug, None); (g_argTvmPeephole, None);
            (g_argInputFile, Some "a.code"%string)] in
  cmdline_run None false (tl argv) = inr m /\
  store m (m_args fresh) = (None, m) /\
  requested m g_argTvmABI && requested m g_argTvm = false /\
  requested m g_argTvmPeephole = true /\
  peephole_target argv = Some "--debug"%string /\
  let r := parseArguments Sample.quiet_engine argv fresh in
  fst r = Ret false /\
  engine_log (snd r) = engine_log fresh /\
  m_sourceCodes (snd r) = m_sourceCodes fresh /\
  match peephole_target argv with
  | Some a => peephole_log (snd r) = peephole_log fresh ++ [a] /\ out (snd r) = out fresh
  | None =>
      peephole_log (snd r) = peephole_log fresh /\
      out (snd r) = out fresh ++ [(Cerr, missing_filename_message)]
  end.
Proof.
  cbv zeta.
  assert (H1 : cmdline_run None false
                 (tl ["solc"; "--debug"; "--tvm-peephole"; "a.code"]%string) =
               inr [(g_argDebug, None); (g_argTvmPeephole, None);
                    (g_argInputFile, Some "a.code"%string)])
    by (vm_compute; reflexivity).
  assert (H2 : store [(g_argDebug, None); (g_argTvmPeephole, None);
                      (g_argInputFile, Some "a.code"%string)] (m_args fresh) =
               (None, [(g_argDebug, None); (g_argTvmPeephole, None);
                       (g_argInputFile, Some "a.code"%string)]))
    by (vm_compute; reflexivity).
  assert (H3 : requested [(g_argDebug, None); (g_argTvmPeephole, None);
                          (g_argInputFile, Some "a.code"%string)] g_argTvmABI &&
               requested [(g_argDebug, None); (g_argTvmPeephole, None);
                          (g_argInputFile, Some "a.code"%string)] g_argTvm = false)
    by (vm_compute; reflexivity).
  assert (H4 : requested [(g_argDebug, None); (g_argTvmPeephole, None);
                          (g_argInputFile, Some "a.code"%string)] g_argTvmPeephole = true)
    by (vm_compute; reflexivity).
  repeat (split; [assumption |]).
  split; [vm_compute; reflexivity |].
  exact (@peephole_mode Sample.quiet_engine
           ["solc"; "--debug"; "--tvm-peephole"; "a.code"]%string fresh _ _ H1 H2 H3 H4).
Defined.

(** X9. On a command line that asks neither for both artifacts nor for the
    peephole pass, the options that only inform are served in a fixed
    order and no compilation follows.  [help], or no argument at all on an
    interactive terminal, has the description of the options written and
    [parseArguments] return [false], also when [version] or [license] is
    given too.  Otherwise [version] has the version text written and the
    process exit with status 0; otherwise [license] has the two license
    texts written and the process exit with status 0. *)
Theorem information_options (env : Env) (argv : list string) (s : CLI)
    (options : list parsed_option) (m : variables_map) :
  cmdline_run None false (tl argv) = inr options ->
  store options (m_args s) = (None, m) ->
  requested m g_argTvmABI && requested m g_argTvm = false ->
  requested m g_argTvmPeephole = false ->
  let r := parseArguments env argv s in
  let help := requested m g_argHelp || (isatty_stdin env && Nat.eqb (length argv) 1) in
  (help = true ->
   fst r = Ret false /\ out (snd r) = out s ++ [(Cout, desc env)]) /\
  (help = false -> requested m g_argVersion = true ->
   fst r = Exit 0 /\ out (snd r) = out s ++ [(Cout, version_text env)]) /\
  (help = false -> requested m g_argVersion = false -> requested m g_strLicense = true ->
   fst r = Exit 0 /\
   out (snd r) =
     out s ++ [(Cout, (otherLicenses env ++ endl)%string);
               (Cout, (licenseText env ++ endl)%string)]) /\
  engine_log (snd r) = engine_log s.
Proof.
  intros Hrun Hstore Hboth Hpeep r help. subst r help.
  rewrite (parseArguments_stored env argv s Hrun Hstore). cbv zeta.
  rewrite Hboth, Hpeep.
  destruct (requested m g_argHelp || (isatty_stdin env && Nat.eqb (length argv) 1)).
  { repeat split; try discriminate; reflexivity. }
  destruct (requested m g_argVersion).
  { repeat split; try discriminate; reflexivity. }
  destruct (requested m g_strLicense); repeat split; try discriminate; reflexivity.
Qed.

Lemma information_options_witness :
  let argv := ["solc"; "--license"; "--version"]%string in
  let m := [(g_strLicense, None); (g_argVersion, None)] in
  cmdline_run None false (tl argv) = inr m /\
  store m (m_args fresh) = (None, m) /\
  requested m g_argTvmABI && requested m g_argTvm = false /\
  requested m g_argTvmPeephole = false /\
  requested m g_argHelp || (isatty_stdin Sample.quiet_engine && Nat.eqb (length argv) 1) = false /\
  requested m g_argVersion = true /\
  fst (parseArguments Sample.quiet_engine argv fresh) = Exit 0 /\
  out (snd (parseArguments Sample.quiet_engine argv fresh)) =
    out fresh ++ [(Cout, version_text Sample.quiet_engine)].
Proof.
  cbv zeta.
  assert (H1 : cmdline_run None false (tl ["solc"; "--license"; "--version"]%string) =
               inr [(g_strLicense, None); (g_argVersion, None)])
    by (vm_compute; reflexivity).
  assert (H2 : store [(g_strLicense, None); (g_argVersion, None)] (m_args fresh) =
               (None, [(g_strLicense, None); (g_argVersion, None)]))
    by (vm_compute; reflexivity).
  assert (H3 : requested [(g_strLicense, None); (g_argVersion, None)] g_argTvmABI &&
               requested [(g_strLicense, None); (g_argVersion, None)] g_argTvm = false)
    by (vm_compute; reflexivity).
  assert (H4 : requested [(g_strLicense, None); (g_argVersion, None)] g_argTvmPeephole = false)
    by (vm_compute; reflexivity).
  assert (H5 : requested [(g_strLicense, None); (g_argVersion, None)] g_argHelp ||
               (isatty_stdin Sample.quiet_engine &&
                Nat.eqb (length ["solc"; "--license"; "--version"]%string) 1) = false)
    by (vm_compute; reflexivity).
  assert (H6 : requested [(g_strLicense, None); (g_argVersion, None)] g_argVersion = true)
    by (vm_compute; reflexivity).
  repeat (split; [assumption |]).
  exact (proj1 (proj2 (@information_options Sample.quiet_engine
                         ["solc"; "--license"; "--version"]%string fresh _ _ H1 H2 H3 H4))
           H5 H6).
Defined.

(** ** The source mapping *)

Lemma map_set_keeps (k k' v : string) (m : SourceMap) :
  In k (map fst m) -> In k (map fst (map_set k' v m)).
Proof.
  induction m as [| [k0 v0] m IH]; [contradiction |].
  cbn [map fst map_set In]. intros [H | H].
  - subst k0. destruct (String.eqb k k') eqn:E.
    + apply String.eqb_eq in E. subst. left. reflexivity.
    + left. reflexivity.
  - destruct (String.eqb k0 k'); cbn [map fst In]; auto.
Qed.

Lemma map_find_set (k v : string) (m : SourceMap) :
  map_find k (map_set k v m) = Some v.
Proof.
  induction m as [| [k0 v0] m IH]; cbn [map_set map_find].
  - rewrite String.eqb_refl. reflexivity.
  - destruct (String.eqb k0 k) eqn:E; cbn [map_find].
    + rewrite String.eqb_refl. reflexivity.
    + rewrite E. exact IH.
Qed.

Lemma sources_kept_preorder : preorder sources_kept.
Proof.
  split.
  - intros s k H. exact H.
  - intros s1 s2 s3 H1 H2 k H. apply H2, H1, H.
Qed.

Ltac kept_base :=
  unfold sources_kept; intros ? ?;
  first [ assumption
        | apply map_set_keeps; assumption ].

Section SourcesKept.

Variable env : Env.

Let HR := sources_kept_preorder.

Ltac kept := inv_auto HR ltac:(kept_base).

Lemma kept_fileReader kind path : Inv sources_kept (fileReader env kind path).
Proof. unfold fileReader. kept. Qed.

Lemma kept_run_script sc : Inv sources_kept (run_script env sc).
Proof.
  induction sc as [a b errs | e | kind path k IH]; simpl.
  - apply (Inv_ret HR).
  - apply (Inv_throw HR).
  - apply (Inv_bind HR); [apply kept_fileReader | exact IH].
Qed.

Lemma kept_handleFault e : Inv sources_kept (handleFault env e).
Proof.
  intro s. destruct (handleFault_cases env e s) as [-> | ->]; intros ? ?; assumption.
Qed.

Lemma kept_processInput : Inv sources_kept (processInput env).
Proof.
  unfold processInput, readInputFilesAndConfigureRemappings, readToken,
    allowDirectoryOf, checkSourcesGiven, configureAndCompile, configure, call,
    invoke, compile, reportError.
  repeat (first [ apply kept_run_script
                | apply kept_handleFault
                | inv_step HR ltac:(kept_base) ]).
Qed.

End SourcesKept.

(** X10. No unit is ever dropped from the source mapping.
    [parseArguments] and [actOnInput] leave the mapping as it is;
    [processInput], with all the calls the engine makes on the read callback
    while it compiles, and the read callback itself only add units or
    replace the content of one: every path that was a key before is a key
    afterwards. *)
Theorem sources_are_never_dropped (env : Env) (s : CLI) :
  (forall argv, m_sourceCodes (snd (parseArguments env argv s)) = m_sourceCodes s) /\
  m_sourceCodes (snd (actOnInput env s)) = m_sourceCodes s /\
  (forall kind path k,
     In k (map fst (m_sourceCodes s)) ->
     In k (map fst (m_sourceCodes (snd (fileReader env kind path s))))) /\
  (forall k,
     In k (map fst (m_sourceCodes s)) ->
     In k (map fst (m_sourceCodes (snd (processInput env s))))).
Proof.
  split; [| split; [| split]].
  - intro argv. apply (@keep_parseArguments _ m_sourceCodes); intros; reflexivity.
  - apply (@keep_actOnInput _ m_sourceCodes); intros; reflexivity.
  - intros kind path. apply (kept_fileReader env kind path s).
  - apply (kept_processInput env s).
Qed.

(** X11. What the read callback hands the engine is what the source
    mapping then holds: when the callback returns success, the kind was the
    read-file kind, the mapping holds the returned content under the path
    that was asked for, and the call is the last entry of the log of reads. *)
Theorem fileReader_success_is_recorded
    (env : Env) (kind path : string) (s s' : CLI) (r : ReadResult) :
  fileReader env kind path s = (Ret r, s') ->
  success r = true ->
  String.eqb kind (kindString_ReadFile env) = true /\
  map_find (generic_string env path) (m_sourceCodes s') = Some (responseOrErrorMessage r) /\
  reader_log s' = reader_log s ++ [(kind, path)].
Proof.
  unfold fileReader, bind, try_catch, modify, lift, throw, ret. cbn [fst snd].
  destruct (String.eqb kind (kindString_ReadFile env)); cbn [negb];
    [destruct (fs_weakly_canonical env path) as [e | c];
       [| destruct (fs_exists env c) as [e | [|]]; cbn [negb];
            [| destruct (fs_is_regular_file env c) as [e | [|]]; cbn [negb] |]] |];
    try (destruct (catches HException (dyn e)));
    try (destruct (catches HException
                     (dyn (InternalCompilerError env
                             ("ReadFile callback used as callback kind " ++ kind)))));
    intros H Hs; inversion H; subst; cbn in Hs; try discriminate.
  all: cbn [m_sourceCodes set_sourceCodes set_reader_log responseOrErrorMessage reader_log].
  all: rewrite map_find_set; repeat split; reflexivity.
Qed.

Lemma fileReader_success_is_recorded_witness :
  exists s' r,
    fileReader Sample.quiet_engine "source" "a.sol" fresh = (Ret r, s') /\
    success r = true /\
    String.eqb "source" (kindString_ReadFile Sample.quiet_engine) = true /\
    map_find (generic_string Sample.quiet_engine "a.sol") (m_sourceCodes s') =
      Some (responseOrErrorMessage r) /\
    reader_log s' = reader_log fresh ++ [("source", "a.sol")]%string.
Proof.
  pose (s' := snd (fileReader Sample.quiet_engine "source" "a.sol" fresh)).
  pose (r := mkResult true "contract C {}").
  assert (H1 : fileReader Sample.quiet_engine "source" "a.sol" fresh = (Ret r, s'))
    by (vm_compute; reflexivity).
  assert (H2 : success r = true) by reflexivity.
  exists s', r. split; [exact H1 |]. split; [exact H2 |].
  exact (@fileReader_success_is_recorded Sample.quiet_engine "source"%string
           "a.sol"%string fresh s' r H1 H2).
Defined.

(** ** The equals sign of a remapping *)

(** X12. The text the driver keeps of a token with an equals sign is what
    follows the first equals sign: [after_first] answers [Some rest]
    exactly when the string is some text without the character, then the
    character, then [rest]. *)
Theorem after_first_splits_at_first (c : ascii) (s rest : string) :
  after_first c s = Some rest <->
  exists before,
    s = (before ++ String c rest)%string /\ after_first c before = None.
Proof.
  split.
  - revert rest. induction s as [| a s IH]; intros rest H; cbn [after_first] in H.
    + discriminate.
    + destruct (Ascii.eqb a c) eqn:E.
      * apply Ascii.eqb_eq in E. inversion H. subst.
        exists EmptyString. split; reflexivity.
      * destruct (IH rest H) as (before & Hs & Hb).
        exists (String a before). cbn [after_first String.append].
        rewrite E, Hs. auto.
  - intros (before & Hs & Hb). subst s. revert Hb.
    induction before as [| a before IH]; intro Hb; cbn [String.append after_first].
    + rewrite Ascii.eqb_refl. reflexivity.
    + cbn [after_first] in Hb. destruct (Ascii.eqb a c); [discriminate |].
      apply IH. exact Hb.
Qed.

(** ** The engine pointer *)

(** X14. [processInput] leaves the engine constructed exactly when the
    loading of the input returned [true]: starting from the null pointer,
    [m_compiler] is set afterwards if and only if
    [readInputFilesAndConfigureRemappings] returned [true], whatever the
    engine then did. *)
Theorem engine_constructed_iff_loaded (env : Env) (s : CLI) :
  m_compiler s = false ->
  (m_compiler (snd (processInput env s)) = true <->
   fst (readInputFilesAndConfigureRemappings env s) = Ret true).
Proof.
  intro Hnull.
  assert (Hkeep : m_compiler (snd (readInputFilesAndConfigureRemappings env s)) =
                  m_compiler s)
    by (apply (@keep_readInput _ m_compiler); intros; reflexivity).
  unfold processInput, bind at 1.
  destruct (readInputFilesAndConfigureRemappings env s) as [[[|] | e | c |] s1];
    cbn [fst snd negb] in *.
  - split; [reflexivity | intros _].
    unfold bind at 1, modify.
    apply (@keep_try _ m_compiler); intros; reflexivity.
  - unfold ret. cbn [snd]. rewrite Hkeep, Hnull. split; discriminate.
  - cbn [snd]. rewrite Hkeep, Hnull. split; discriminate.
  - cbn [snd]. rewrite Hkeep, Hnull. split; discriminate.
  - cbn [snd]. rewrite Hkeep, Hnull. split; discriminate.
Qed.

Lemma engine_constructed_iff_loaded_witness :
  m_compiler one_file = false /\
  (m_compiler (snd (processInput failing_engine one_file)) = true <->
   fst (readInputFilesAndConfigureRemappings failing_engine one_file) = Ret true).
Proof.
  split; [reflexivity |].
  exact (@engine_constructed_iff_loaded failing_engine one_file eq_refl).
Defined.

(** X15. The output stage needs the engine: on the null pointer
    [actOnInput] runs into the dereference of [m_compiler] and its
    behaviour is undefined, whatever the options. *)
Theorem actOnInput_needs_engine (env : Env) (s : CLI) :
  m_compiler s = false -> fst (actOnInput env s) = Undefined.
Proof.
  intro Hnull.
  assert (Hast : forall argStr s0,
            m_compiler s0 = false ->
            argStr = g_argAstJson \/ argStr = g_argAstCompactJson ->
            exists s1,
              handleAst env argStr s0 = (Undefined, s1) \/
              (handleAst env argStr s0 = (Ret tt, s1) /\ m_compiler s1 = false)).
  { intros argStr s0 H0 Harg. unfold handleAst.
    assert (Htitle : exists title,
      (if String.eqb argStr g_argAstJson then ret "JSON AST:"%string
       else if String.eqb argStr g_argAstCompactJson
            then ret "JSON AST (compact format):"%string
            else throw (InternalCompilerError env "Illegal argStr for AST")) =
      ret title).
    { destruct Harg; subst; eexists; reflexivity. }
    destruct Htitle as [title Htitle]. rewrite Htitle.
    unfold bind, ret, get. cbv beta iota.
    destruct (given s0 argStr); [| exists s0; right; split; [reflexivity | exact H0]].
    destruct (m_sourceCodes s0) as [| sc sources].
    - cbn [for_each]. unfold bind, ret, sout, modify. cbv beta iota.
      eexists. right. split; [reflexivity | exact H0].
    - cbn [for_each]. unfold bind, deref. rewrite H0. cbv beta iota.
      eexists. left. reflexivity. }
  unfold actOnInput, outputCompilationResults, bind.
  destruct (Hast g_argAstJson s Hnull (or_introl eq_refl)) as [s1 [H1 | [H1 H1']]];
    rewrite H1; [reflexivity |].
  destruct (Hast g_argAstCompactJson s1 H1' (or_intror eq_refl)) as [s2 [H2 | [H2 H2']]];
    rewrite H2; [reflexivity |].
  unfold deref. rewrite H2'. reflexivity.
Qed.

Lemma actOnInput_needs_engine_witness :
  m_compiler missing_given = false /\
  fst (actOnInput Sample.quiet_engine missing_given) = Undefined.
Proof.
  split; [reflexivity |].
  exact (@actOnInput_needs_engine Sample.quiet_engine missing_given eq_refl).
Defined.

(** ** The two streams *)

Lemma writes_on_preorder (st : stream) : preorder (writes_on st).
Proof.
  split.
  - intro s. exists []. rewrite app_nil_r. split; [reflexivity | constructor].
  - intros s1 s2 s3 (n1 & E1 & F1) (n2 & E2 & F2).
    exists (n1 ++ n2). rewrite E2, E1, app_assoc. split; [reflexivity |].
    apply Forall_app. split; assumption.
Qed.

Lemma writes_on_silent (st : stream) (s s' : CLI) :
  out s' = out s -> writes_on st s s'.
Proof. intro H. exists []. rewrite app_nil_r. split; [exact H | constructor]. Qed.

Lemma writes_on_one (st : stream) (s s' : CLI) (t : string) :
  out s' = out s ++ [(st, t)] -> writes_on st s s'.
Proof.
  intro H. exists [(st, t)]. split; [exact H |].
  constructor; [reflexivity | constructor].
Qed.

Ltac cerr_base :=
  first [ apply writes_on_silent; reflexivity
        | eapply writes_on_one; reflexivity ].

Section Streams.

Variable env : Env.

Let HR := writes_on_preorder Cerr.

Lemma cerr_fileReader kind path : Inv (writes_on Cerr) (fileReader env kind path).
Proof. unfold fileReader. inv_auto HR ltac:(cerr_base). Qed.

Lemma cerr_run_script sc : Inv (writes_on Cerr) (run_script env sc).
Proof.
  induction sc as [a b errs | e | kind path k IH]; simpl.
  - apply (Inv_ret HR).
  - apply (Inv_throw HR).
  - apply (Inv_bind HR); [apply cerr_fileReader | exact IH].
Qed.

Lemma cerr_handleFault e : Inv (writes_on Cerr) (handleFault env e).
Proof.
  intro s. destruct (handleFault_cases env e s) as [-> | ->].
  - eapply writes_on_one; reflexivity.
  - apply (pre_refl HR).
Qed.

Lemma cerr_processInput : Inv (writes_on Cerr) (processInput env).
Proof.
  unfold processInput, readInputFilesAndConfigureRemappings, readToken,
    allowDirectoryOf, checkSourcesGiven, configureAndCompile, configure, call,
    invoke, compile, reportError.
  repeat (first [ apply cerr_run_script
                | apply cerr_handleFault
                | inv_step HR ltac:(cerr_base) ]).
Qed.

End Streams.

(** X16. The two streams are kept apart.  Whatever [processInput] writes,
    the messages of the loading, the deprecation notice, the errors of the
    engine and the rendering of a fault, it writes on the diagnostic stream
    and never on the content stream.  What [outputCompilationResults]
    writes on the diagnostic stream is the halt notice or the advisory and
    nothing else; the trees and the documents go to the content stream. *)
Theorem streams_kept_apart (env : Env) (s : CLI) :
  (exists new,
     out (snd (processInput env s)) = out s ++ new /\
     forall x, In x new -> fst x = Cerr) /\
  (m_compiler s = true ->
   exists new,
     out (snd (outputCompilationResults env s)) = out s ++ new /\
     forall x, In x new -> fst x = Cerr -> snd x = halt_notice \/ snd x = advisory).
Proof.
  split.
  - destruct (cerr_processInput env s) as (new & E & F).
    exists new. split; [exact E |]. apply Forall_forall. exact F.
  - intro H. rewrite outputCompilationResults_wrote by exact H. cbn [snd].
    exists (results_output env s). split; [apply wrote_out |].
    intros x Hin Hx. unfold results_output in Hin.
    destruct (compilationSuccessful env).
    + apply in_app_or in Hin. destruct Hin as [Hin | Hin].
      * apply body_on_cout in Hin. rewrite Hin in Hx. discriminate.
      * destruct (g_hasOutput s || negb (is_nil _)); [contradiction |].
        destruct Hin as [Hin | []]. subst x. right. reflexivity.
    + apply in_app_or in Hin. destruct Hin as [Hin | [Hin | []]].
      * apply ast_block_on_cout_trees in Hin. rewrite Hin in Hx. discriminate.
      * subst x. left. reflexivity.
Qed.

Lemma streams_kept_apart_witness :
  m_compiler failed_run = true /\
  exists new,
    out (snd (outputCompilationResults erring_engine failed_run)) = out failed_run ++ new /\
    forall x, In x new -> fst x = Cerr -> snd x = halt_notice \/ snd x = advisory.
Proof.
  assert (H : m_compiler failed_run = true) by (vm_compute; reflexivity).
  split; [exact H |].
  exact (proj2 (streams_kept_apart erring_engine failed_run) H).
Defined.
